(** * A personal finance ledger: [Transaction] and [ExpenseDatabase] of app.py

    The program keeps income and expense transactions in one SQLite table and
    derives two aggregate views from it.  The development below embeds the
    [Transaction] class, the methods of [ExpenseDatabase] and the route
    handlers, with the SQL statements given their relational meaning over
    the list of stored rows, and proves the ledger properties about them. *)

From Stdlib Require Import ZArith Ascii String.
From stdpp Require Import base decidable option list gmap strings sorting.

Local Open Scope string_scope.
Local Open Scope list_scope.
Local Open Scope Z_scope.

(** ** Numbers

    Amounts are Python [float]s, stored in a column of SQLite type REAL.  The
    ledger only adds, subtracts and compares them, and reads them with
    [float(...)]; those operations form the interface below.  A float may be
    not-a-number: [float("nan")] is one, and so is the sum of [inf] and
    [-inf].  SQLite has no such value: it binds it as NULL, and an aggregate
    that comes out not-a-number is returned as NULL.  The laws are the ones
    the proofs use: SQLite orders REAL values by a total preorder, and
    [0.0 - 0.0] is [0.0]. *)
Class Number := {
  num : Type;
  nzero : num;
  nadd : num → num → num;
  nsub : num → num → num;
  nleb : num → num → bool;
  (** Python's [float(s)] on a string; [None] stands for [ValueError]. *)
  float_of_string : string → option num;
  is_nan : num → bool;
  nleb_total : ∀ x y, nleb x y = true ∨ nleb y x = true;
  nleb_trans : ∀ x y z, nleb x y = true → nleb y z = true → nleb x z = true;
  nsub_zero : nsub nzero nzero = nzero;
}.

(** Exact integers are one instance; the concrete examples run on it. *)
Fixpoint digits_of_string (s : string) (acc : Z) : option Z :=
  match s with
  | EmptyString => Some acc
  | String c s' =>
      match Ascii.is_nat c with
      | Some d => digits_of_string s' (10 * acc + Z.of_nat d)
      | None => None
      end
  end.

Definition Z_of_string (s : string) : option Z :=
  match s with
  | EmptyString => None
  | String "-"%char (String c r) => Z.opp <$> digits_of_string (String c r) 0
  | String c r => digits_of_string (String c r) 0
  end.

#[export] Instance Z_number : Number.
Proof.
  refine {| num := Z; nzero := 0; nadd := Z.add; nsub := Z.sub;
            nleb := Z.leb; float_of_string := Z_of_string;
            is_nan := λ _, false |}.
  - intros x y. destruct (Z.leb_spec x y), (Z.leb_spec y x); auto; lia.
  - intros x y z. rewrite !Z.leb_le. lia.
  - reflexivity.
Defined.

(** Integers with the two infinities and not-a-number are another; the
    examples with infinite amounts run on it.  [inf + -inf] is not-a-number,
    which every operation hands on. *)
Inductive ext := Fin (z : Z) | PInf | NInf | NaN.

Definition ext_add (x y : ext) : ext :=
  match x, y with
  | NaN, _ | _, NaN => NaN
  | PInf, NInf | NInf, PInf => NaN
  | PInf, _ | _, PInf => PInf
  | NInf, _ | _, NInf => NInf
  | Fin a, Fin b => Fin (a + b)
  end.

Definition ext_opp (x : ext) : ext :=
  match x with
  | Fin a => Fin (- a)
  | PInf => NInf
  | NInf => PInf
  | NaN => NaN
  end.

Definition ext_sub (x y : ext) : ext := ext_add x (ext_opp y).

(** The order of the values, not-a-number placed below all others. *)
Definition ext_leb (x y : ext) : bool :=
  match x, y with
  | NaN, _ => true
  | _, NaN => false
  | NInf, _ => true
  | _, NInf => false
  | _, PInf => true
  | PInf, _ => false
  | Fin a, Fin b => a <=? b
  end.

Definition ext_of_string (s : string) : option ext :=
  if bool_decide (s = "inf") then Some PInf
  else if bool_decide (s = "-inf") then Some NInf
  else if bool_decide (s = "nan") then Some NaN
  else Fin <$> Z_of_string s.

Definition ext_is_nan (x : ext) : bool :=
  match x with NaN => true | _ => false end.

Definition ext_number : Number.
Proof.
  refine {| num := ext; nzero := Fin 0; nadd := ext_add; nsub := ext_sub;
            nleb := ext_leb; float_of_string := ext_of_string;
            is_nan := ext_is_nan |}.
  - intros [a| | |] [b| | |]; simpl; auto.
    destruct (Z.leb_spec a b), (Z.leb_spec b a); auto; lia.
  - intros [a| | |] [b| | |] [c| | |]; simpl; try done.
    rewrite !Z.leb_le. lia.
  - reflexivity.
Defined.

(** ** Exceptions and results *)

(** [ValueError] is raised by [float], [IntegrityError] by SQLite when a
    constraint of the table fails or a LIMIT is no integer, [KeyError] by a
    dictionary lookup, [OverflowError] by the binding of a Python integer
    that does not fit SQLite's 64 bits, [TypeError] by arithmetic on
    [None]. *)
Inductive exn :=
  | ValueError | IntegrityError | KeyError | OverflowError | TypeError.

Inductive result (A : Type) :=
  | Ok (a : A)
  | Raise (e : exn).
Arguments Ok {A} a.
Arguments Raise {A} e.

(** ** The clock

    [datetime.now()] is read through an explicit clock.  [today] is
    [datetime.now().date().isoformat()] and [now] is
    [datetime.now().isoformat()]; an ISO string is never empty. *)
Record clock := {
  today : string;
  now : string;
  today_nonempty : today ≠ "";
  now_nonempty : now ≠ "";
}.

(** Python's [x or y] on an optional string: [None] and [""] are falsy. *)
Definition str_or (x : option string) (y : string) : string :=
  match x with
  | None => y
  | Some EmptyString => y
  | Some s => s
  end.
Arguments str_or : simpl never.

(** ** class Transaction *)
Module Transaction.
Section WithNumber.
Context `{Number}.

Record t := mk {
  id : option Z;
  type : string;
  amount : num;
  category : string;
  description : string;
  date : string;
  created_at : string;
}.

(** The [amount] argument is a form string or a number. *)
Inductive amount_arg :=
  | AmountStr (s : string)
  | AmountNum (x : num).

Definition float (a : amount_arg) : result num :=
  match a with
  | AmountStr s =>
      match float_of_string s with
      | Some x => Ok x
      | None => Raise ValueError
      end
  | AmountNum x => Ok x
  end.

Definition __init__ (clk : clock) (id : option Z) (type : string)
    (amount : amount_arg) (category description : string)
    (date created_at : option string) : result t :=
  match float amount with
  | Raise e => Raise e
  | Ok a =>
      Ok {| id := id; type := type; amount := a; category := category;
            description := description;
            date := str_or date (today clk);
            created_at := str_or created_at (now clk) |}
  end.
End WithNumber.
End Transaction.

(** ** The [transactions] table *)
Module Row.
Section WithNumber.
Context `{Number}.

(** One row of
    [transactions(id, type, amount, category, description, date, created_at)]. *)
Record t := mk {
  id : Z;
  type : string;
  amount : num;
  category : string;
  description : string;
  date : string;
  created_at : string;
}.
End WithNumber.
End Row.

Section Database.
Context `{Number}.

(** The table in rowid order, and the AUTOINCREMENT counter kept in
    [sqlite_sequence]: the largest id handed out so far.  Every method opens
    its own connection; each is taken to find the file unlocked, that is, no
    connection of an earlier call is still open.  The counter is taken to
    stay below the largest 64-bit integer, which no run of the program
    brings it near, so that a next id is always at hand. *)
Record database := {
  rows : list Row.t;
  sequence : Z;
}.

(** [CHECK(type IN ('income', 'expense'))] *)
Definition check_type (ty : string) : bool :=
  bool_decide (ty = "income" ∨ ty = "expense").

(** [CREATE TABLE IF NOT EXISTS transactions (...)] on a fresh file. *)
Definition init_db : database := {| rows := []; sequence := 0 |}.

(** SQLite's INTEGER, and so the [id] column, holds 64-bit signed values. *)
Definition in_int64 (z : Z) : bool :=
  (- 2 ^ 63 <=? z) && (z <=? 2 ^ 63 - 1).

(** [SELECT * FROM transactions WHERE id = ?] followed by [fetchone()]: the
    first row with that id.  No row has an id outside the 64 bits of the
    column, and such an id cannot even be bound: the methods below raise
    [OverflowError] on it. *)
Definition select_by_id (transaction_id : Z) (db : database) : option Row.t :=
  if in_int64 transaction_id
  then head (filter (λ r, Row.id r = transaction_id) (rows db))
  else None.

(** [ORDER BY date DESC, created_at DESC]: [r1] may stand before [r2].
    TEXT values compare bytewise, as [String.le] does. *)
Definition date_desc (r1 r2 : Row.t) : Prop :=
  String.le (Row.date r2) (Row.date r1) ∧
  (String.le (Row.date r1) (Row.date r2) →
   String.le (Row.created_at r2) (Row.created_at r1)).

#[export] Instance date_desc_dec : RelDecision date_desc.
Proof. intros r1 r2. unfold date_desc. apply _. Defined.

(** [LIMIT n], with [n] written into the query text: a negative [n] means
    no limit, and a literal outside the 64-bit integers is no integer, which
    SQLite refuses as a datatype mismatch. *)
Definition sql_limit {A} (n : Z) (l : list A) : result (list A) :=
  if in_int64 n then Ok (if n <? 0 then l else take (Z.to_nat n) l)
  else Raise IntegrityError.

(** The row handed to the constructor, as every reading method does:
    [Transaction(id=row['id'], type=row['type'], ...)]. *)
Definition transaction_of_row (clk : clock) (row : Row.t) : result Transaction.t :=
  Transaction.__init__ clk (Some (Row.id row)) (Row.type row)
    (Transaction.AmountNum (Row.amount row)) (Row.category row)
    (Row.description row) (Some (Row.date row)) (Some (Row.created_at row)).

(** [for row in rows: transactions.append(Transaction(...))] *)
Fixpoint transactions_of_rows (clk : clock) (rs : list Row.t)
    : result (list Transaction.t) :=
  match rs with
  | [] => Ok []
  | row :: rs' =>
      match transaction_of_row clk row with
      | Raise e => Raise e
      | Ok transaction =>
          match transactions_of_rows clk rs' with
          | Raise e => Raise e
          | Ok transactions => Ok (transaction :: transactions)
          end
      end
  end.

(** [limit] is [None] or an integer; [if limit:] is false for both [None]
    and [0]. *)
Definition get_all_transactions (clk : clock) (limit : option Z)
    (db : database) : result (list Transaction.t) :=
  let ordered := merge_sort date_desc (rows db) in
  let fetched :=
    match limit with
    | None => Ok ordered
    | Some n =>
        if bool_decide (n = 0) then Ok ordered else sql_limit n ordered
    end in
  match fetched with
  | Raise e => Raise e
  | Ok rows => transactions_of_rows clk rows
  end.

Definition get_transaction_by_id (clk : clock) (transaction_id : Z)
    (db : database) : result (option Transaction.t) :=
  if in_int64 transaction_id then
    match select_by_id transaction_id db with
    | Some row =>
        match transaction_of_row clk row with
        | Ok transaction => Ok (Some transaction)
        | Raise e => Raise e
        end
    | None => Ok None
    end
  else Raise OverflowError.

(** [INSERT INTO transactions (type, ...) VALUES (?, ...)]: the CHECK
    constraint on [type] and the NOT NULL constraint on [amount] (a
    not-a-number is bound as NULL) are tested, the new id is one more than
    the counter, and [cursor.lastrowid] is that id.  A failed statement
    changes nothing. *)
Definition add_transaction (transaction : Transaction.t) (db : database)
    : result Transaction.t * database :=
  if check_type (Transaction.type transaction) then
    if is_nan (Transaction.amount transaction) then (Raise IntegrityError, db)
    else
    let transaction_id := sequence db + 1 in
    let row := {| Row.id := transaction_id;
                  Row.type := Transaction.type transaction;
                  Row.amount := Transaction.amount transaction;
                  Row.category := Transaction.category transaction;
                  Row.description := Transaction.description transaction;
                  Row.date := Transaction.date transaction;
                  Row.created_at := Transaction.created_at transaction |} in
    (Ok {| Transaction.id := Some transaction_id;
           Transaction.type := Transaction.type transaction;
           Transaction.amount := Transaction.amount transaction;
           Transaction.category := Transaction.category transaction;
           Transaction.description := Transaction.description transaction;
           Transaction.date := Transaction.date transaction;
           Transaction.created_at := Transaction.created_at transaction |},
     {| rows := rows db ++ [row]; sequence := transaction_id |})
  else (Raise IntegrityError, db).

(** The dictionary handed to [update_transaction].  Only the keys in
    [allowed_fields] are ever read, so the dictionary is kept as those five
    optional entries: [None] is an absent key. *)
Record transaction_data := {
  td_type : option string;
  td_amount : option num;
  td_category : option string;
  td_description : option string;
  td_date : option string;
}.

(** One [field = ?] of the SET clause together with its bound value. *)
Inductive assignment :=
  | SetType (v : string)
  | SetAmount (v : num)
  | SetCategory (v : string)
  | SetDescription (v : string)
  | SetDate (v : string).

(** [for field in allowed_fields: if field in transaction_data: ...], in the
    order of [allowed_fields]. *)
Definition update_fields (d : transaction_data) : list assignment :=
  from_option (λ v, [SetType v]) [] (td_type d) ++
  from_option (λ v, [SetAmount v]) [] (td_amount d) ++
  from_option (λ v, [SetCategory v]) [] (td_category d) ++
  from_option (λ v, [SetDescription v]) [] (td_description d) ++
  from_option (λ v, [SetDate v]) [] (td_date d).

Definition assign (row : Row.t) (a : assignment) : Row.t :=
  match a with
  | SetType v =>
      {| Row.id := Row.id row; Row.type := v; Row.amount := Row.amount row;
         Row.category := Row.category row;
         Row.description := Row.description row; Row.date := Row.date row;
         Row.created_at := Row.created_at row |}
  | SetAmount v =>
      {| Row.id := Row.id row; Row.type := Row.type row; Row.amount := v;
         Row.category := Row.category row;
         Row.description := Row.description row; Row.date := Row.date row;
         Row.created_at := Row.created_at row |}
  | SetCategory v =>
      {| Row.id := Row.id row; Row.type := Row.type row;
         Row.amount := Row.amount row; Row.category := v;
         Row.description := Row.description row; Row.date := Row.date row;
         Row.created_at := Row.created_at row |}
  | SetDescription v =>
      {| Row.id := Row.id row; Row.type := Row.type row;
         Row.amount := Row.amount row; Row.category := Row.category row;
         Row.description := v; Row.date := Row.date row;
         Row.created_at := Row.created_at row |}
  | SetDate v =>
      {| Row.id := Row.id row; Row.type := Row.type row;
         Row.amount := Row.amount row; Row.category := Row.category row;
         Row.description := Row.description row; Row.date := v;
         Row.created_at := Row.created_at row |}
  end.

(** [UPDATE transactions SET ... WHERE id = ?] on one row. *)
Definition update_row (fields : list assignment) (transaction_id : Z)
    (row : Row.t) : Row.t :=
  if bool_decide (Row.id row = transaction_id) then foldl assign row fields
  else row.

(** The number of rows a [WHERE id = ?] statement touches. *)
Definition rowcount (transaction_id : Z) (db : database) : nat :=
  length (filter (λ r, Row.id r = transaction_id) (rows db)).

(** A value bound for one [field = ?] passes the constraints of its column:
    CHECK on [type], NOT NULL on [amount] (a not-a-number is bound as NULL).
    An UPDATE tests the constraints of the columns it sets, on every row it
    writes. *)
Definition assignment_ok (a : assignment) : bool :=
  match a with
  | SetType v => check_type v
  | SetAmount v => negb (is_nan v)
  | _ => true
  end.

(** [cursor.execute(query, values)] for the UPDATE: an id that does not fit
    64 bits cannot be bound; a bound value that breaks a constraint makes the
    statement fail as a whole if there is a row to write it to; otherwise the
    result is the table after the statement and [cursor.rowcount]. *)
Definition sql_update (fields : list assignment) (transaction_id : Z)
    (db : database) : result (list Row.t * nat) :=
  if in_int64 transaction_id then
    if bool_decide (0 < rowcount transaction_id db)%nat
       && negb (forallb assignment_ok fields)
    then Raise IntegrityError
    else Ok (update_row fields transaction_id <$> rows db,
             rowcount transaction_id db)
  else Raise OverflowError.

(** With no field to set the method returns [None] before any statement
    runs; with no row touched it returns [None] after it.  An exception
    leaves the method before [conn.commit()]: nothing is written. *)
Definition update_transaction (clk : clock) (transaction_id : Z)
    (d : transaction_data) (db : database)
    : result (option Transaction.t) * database :=
  match update_fields d with
  | [] => (Ok None, db)
  | fields =>
      match sql_update fields transaction_id db with
      | Raise e => (Raise e, db)
      | Ok (updated, count) =>
          let db' := {| rows := updated; sequence := sequence db |} in
          if bool_decide (0 < count)%nat
          then (get_transaction_by_id clk transaction_id db', db')
          else (Ok None, db')
      end
  end.

(** [DELETE FROM transactions WHERE id = ?]; an id that does not fit 64 bits
    cannot be bound.  The counter keeps its value, so an id is never handed
    out twice. *)
Definition delete_transaction (transaction_id : Z) (db : database)
    : result bool * database :=
  if in_int64 transaction_id then
    let deleted := bool_decide (0 < rowcount transaction_id db)%nat in
    (Ok deleted,
     {| rows := filter (λ r, Row.id r ≠ transaction_id) (rows db);
        sequence := sequence db |})
  else (Raise OverflowError, db).

(** *** Aggregation

    [SELECT key, SUM(amount), COUNT(...) FROM transactions GROUP BY key] is
    run as one pass over the table that keeps, per key met so far, the
    running sum and the running count; at the end each group is returned
    with its sum as SQLite hands it out, NULL (Python's [None]) when the sum
    is not-a-number. *)
Section GroupBy.
Context {K : Type} `{EqDecision K}.

Fixpoint accumulate (k : K) (a : num) (acc : list (K * (num * nat)))
    : list (K * (num * nat)) :=
  match acc with
  | [] => [(k, (nadd nzero a, 1%nat))]
  | (k', (s, c)) :: acc' =>
      if decide (k = k') then (k', (nadd s a, S c)) :: acc'
      else (k', (s, c)) :: accumulate k a acc'
  end.

Definition group_by (key : Row.t → K) (rs : list Row.t)
    : list (K * (num * nat)) :=
  foldl (λ acc row, accumulate (key row) (Row.amount row) acc) [] rs.

Definition sql_real (s : num) : option num :=
  if is_nan s then None else Some s.

Definition aggregate (key : Row.t → K) (rs : list Row.t)
    : list (K * (option num * nat)) :=
  (λ g, (g.1, (sql_real g.2.1, g.2.2))) <$> group_by key rs.
End GroupBy.

(** The dictionary [summary]: the two totals are floats, or [None] once a
    NULL sum has been stored in them. *)
Record Summary := {
  total_income : option num;
  total_expenses : option num;
  net_balance : num;
  income_count : nat;
  expense_count : nat;
  total_transactions : nat;
}.

(** The body of [for row in results] in [get_summary]. *)
Definition summary_row (summary : Summary)
    (row : string * (option num * nat)) : Summary :=
  if decide (row.1 = "income") then
    {| total_income := row.2.1; total_expenses := total_expenses summary;
       net_balance := net_balance summary; income_count := row.2.2;
       expense_count := expense_count summary;
       total_transactions := total_transactions summary |}
  else if decide (row.1 = "expense") then
    {| total_income := total_income summary; total_expenses := row.2.1;
       net_balance := net_balance summary;
       income_count := income_count summary; expense_count := row.2.2;
       total_transactions := total_transactions summary |}
  else summary.

(** The dictionary [summary] starts from: every entry zero. *)
Definition zero_summary : Summary :=
  {| total_income := Some nzero; total_expenses := Some nzero;
     net_balance := nzero; income_count := 0%nat; expense_count := 0%nat;
     total_transactions := 0%nat |}.

(** [summary['total_income'] - summary['total_expenses']] raises [TypeError]
    when either total is [None]; the method has no [try]. *)
Definition get_summary (db : database) : result Summary :=
  let results := aggregate Row.type (rows db) in
  let summary := foldl summary_row zero_summary results in
  match total_income summary, total_expenses summary with
  | Some income, Some expenses =>
      Ok {| total_income := Some income;
            total_expenses := Some expenses;
            net_balance := nsub income expenses;
            income_count := income_count summary;
            expense_count := expense_count summary;
            total_transactions :=
              (income_count summary + expense_count summary)%nat |}
  | _, _ => Raise TypeError
  end.
End Database.

(** One entry [{'category': ..., 'total': ..., 'count': ...}]. *)
Module CategoryRow.
Section WithNumber.
Context `{Number}.

Record t := mk {
  category : string;
  total : option num;
  count : nat;
}.
End WithNumber.
End CategoryRow.

Section CategorySummary.
Context `{Number}.

(** The key of [GROUP BY type, category]. *)
Definition type_category (r : Row.t) : string * string :=
  (Row.type r, Row.category r).

(** Descending order with NULL last: SQLite takes NULL for smaller than
    every value.  [a] may stand before [b]. *)
Definition null_last (a b : option num) : Prop :=
  match a, b with
  | _, None => True
  | None, Some _ => False
  | Some x, Some y => nleb y x = true
  end.

#[export] Instance null_last_dec : RelDecision null_last.
Proof. intros [x|] [y|]; simpl; apply _. Defined.

(** [ORDER BY total DESC]: [g1] may stand before [g2]. *)
Definition total_desc (g1 g2 : (string * string) * (option num * nat))
    : Prop :=
  null_last g1.2.1 g2.2.1.

#[export] Instance total_desc_dec : RelDecision total_desc.
Proof. intros g1 g2. unfold total_desc. apply _. Defined.

(** [{'category': row['category'], 'total': row['total'],
     'count': row['count']}] *)
Definition category_row (row : (string * string) * (option num * nat))
    : CategoryRow.t :=
  {| CategoryRow.category := row.1.2;
     CategoryRow.total := row.2.1;
     CategoryRow.count := row.2.2 |}.

(** [categories[row['type']].append({...})]; a key that is not in the
    dictionary raises [KeyError]. *)
Definition categories_row
    (categories : result (gmap string (list CategoryRow.t)))
    (row : (string * string) * (option num * nat))
    : result (gmap string (list CategoryRow.t)) :=
  match categories with
  | Raise e => Raise e
  | Ok categories =>
      match categories !! row.1.1 with
      | None => Raise KeyError
      | Some l =>
          Ok (<[row.1.1 := l ++ [category_row row]]> categories)
      end
  end.

Definition get_category_summary (db : database)
    : result (gmap string (list CategoryRow.t)) :=
  let results :=
    merge_sort total_desc (aggregate type_category (rows db)) in
  foldl categories_row (Ok (<["income" := []]> (<["expense" := []]> ∅)))
    results.
End CategorySummary.

(** ** The [/add] route *)
Module Routes.
Section WithNumber.
Context `{Number}.

(** The [try] block of the route: build the [Transaction] from the form
    values, then store it.  An exception of either step is what the route
    answers with status 400; [Ok] is the redirect to the index page. *)
Definition add_transaction (clk : clock) (type : string)
    (amount : Transaction.amount_arg) (category description : string)
    (date : option string) (db : database)
    : result Transaction.t * database :=
  match
    Transaction.__init__ clk None type amount category description date None
  with
  | Raise e => (Raise e, db)
  | Ok transaction => add_transaction transaction db
  end.
End WithNumber.
End Routes.

(** ** [to_dict] and [from_dict]

    A transaction dictionary.  Only the seven keys below are ever written or
    read, so the dictionary is kept as those seven optional entries: [None] is
    an absent key and, for [id], [date] and [created_at], also a key bound to
    [None] ([data.get] does not tell the two apart). *)
Section Dictionaries.
Context `{Number}.

Record transaction_dict := {
  d_id : option Z;
  d_type : option string;
  d_amount : option Transaction.amount_arg;
  d_category : option string;
  d_description : option string;
  d_date : option string;
  d_created_at : option string;
}.

Definition to_dict (self : Transaction.t) : transaction_dict :=
  {| d_id := Transaction.id self;
     d_type := Some (Transaction.type self);
     d_amount := Some (Transaction.AmountNum (Transaction.amount self));
     d_category := Some (Transaction.category self);
     d_description := Some (Transaction.description self);
     d_date := Some (Transaction.date self);
     d_created_at := Some (Transaction.created_at self) |}.

(** [cls(id=data.get('id'), type=data.get('type', 'expense'), ...)] *)
Definition from_dict (clk : clock) (data : transaction_dict)
    : result Transaction.t :=
  Transaction.__init__ clk (d_id data)
    (default "expense" (d_type data))
    (default (Transaction.AmountNum nzero) (d_amount data))
    (default "" (d_category data))
    (default "" (d_description data))
    (d_date data) (d_created_at data).
End Dictionaries.

(** ** The route handlers

    [request.form] is a map from field names to strings; a missing field
    raises [KeyError] at [form[...]].  A response is the redirect to the
    index page, a rendered page (kept as the values handed to the template),
    or [jsonify({'error': ...})] with a status code. *)
Module Handlers.
Section WithNumber.
Context `{Number}.

(** The text of an error answer: a literal, or [str(e)] of an exception. *)
Inductive error_text :=
  | Text (s : string)
  | StrOf (e : exn).

Inductive response :=
  | Redirect
  | IndexPage (transactions : list transaction_dict) (summary : Summary)
      (today : string)
  | EditPage (transaction : transaction_dict)
  | Json (status : Z) (error : error_text)
  (** an exception outside any [try] *)
  | Uncaught (e : exn).

(** [GET /] *)
Definition index (clk : clock) (db : database) : response :=
  match get_all_transactions clk (Some 10) db with
  | Raise e => Uncaught e
  | Ok transactions =>
      match get_summary db with
      | Raise e => Uncaught e
      | Ok summary =>
          IndexPage (to_dict <$> transactions) summary (today clk)
      end
  end.

(** [POST /add] *)
Definition add_transaction (clk : clock) (form : gmap string string)
    (db : database) : response * database :=
  match form !! "type" with
  | None => (Json 400 (StrOf KeyError), db)
  | Some type =>
  match form !! "amount" with
  | None => (Json 400 (StrOf KeyError), db)
  | Some amount =>
  match form !! "category" with
  | None => (Json 400 (StrOf KeyError), db)
  | Some category =>
  let description := default "" (form !! "description") in
  match form !! "date" with
  | None => (Json 400 (StrOf KeyError), db)
  | Some date =>
      match
        Routes.add_transaction clk type (Transaction.AmountStr amount)
          category description (Some date) db
      with
      | (Ok _, db') => (Redirect, db')
      | (Raise e, db') => (Json 400 (StrOf e), db')
      end
  end end end end.

(** [GET /edit/<int:transaction_id>] *)
Definition edit_transaction (clk : clock) (transaction_id : Z)
    (db : database) : response :=
  match get_transaction_by_id clk transaction_id db with
  | Raise e => Uncaught e
  | Ok None => Json 404 (Text "Transaction not found")
  | Ok (Some transaction) => EditPage (to_dict transaction)
  end.

(** [POST /edit/<int:transaction_id>]: the dictionary always carries all
    five fields. *)
Definition update_transaction (clk : clock) (transaction_id : Z)
    (form : gmap string string) (db : database) : response * database :=
  match form !! "type" with
  | None => (Json 400 (StrOf KeyError), db)
  | Some type =>
  match form !! "amount" with
  | None => (Json 400 (StrOf KeyError), db)
  | Some amount =>
  match Transaction.float (Transaction.AmountStr amount) with
  | Raise e => (Json 400 (StrOf e), db)
  | Ok amount =>
  match form !! "category" with
  | None => (Json 400 (StrOf KeyError), db)
  | Some category =>
  let description := default "" (form !! "description") in
  match form !! "date" with
  | None => (Json 400 (StrOf KeyError), db)
  | Some date =>
      let data :=
        {| td_type := Some type; td_amount := Some amount;
           td_category := Some category; td_description := Some description;
           td_date := Some date |} in
      match update_transaction clk transaction_id data db with
      | (Ok (Some _), db') => (Redirect, db')
      | (Ok None, db') =>
          (Json 400 (Text "Failed to update transaction"), db')
      | (Raise e, db') => (Json 400 (StrOf e), db')
      end
  end end end end end.

(** [GET /delete/<int:transaction_id>] *)
Definition delete_transaction (transaction_id : Z) (db : database)
    : response * database :=
  match delete_transaction transaction_id db with
  | (Ok true, db') => (Redirect, db')
  | (Ok false, db') => (Json 404 (Text "Transaction not found"), db')
  | (Raise e, db') => (Uncaught e, db')
  end.

(** The requests that write to the store, and the store a sequence of them
    leaves behind, starting from a fresh database, each request finding the
    file unlocked. *)
Inductive request :=
  | PostAdd (clk : clock) (form : gmap string string)
  | PostEdit (clk : clock) (transaction_id : Z) (form : gmap string string)
  | GetDelete (transaction_id : Z).

Definition handle (r : request) (db : database) : response * database :=
  match r with
  | PostAdd clk form => add_transaction clk form db
  | PostEdit clk transaction_id form =>
      update_transaction clk transaction_id form db
  | GetDelete transaction_id => delete_transaction transaction_id db
  end.

Definition run (requests : list request) : database :=
  foldl (λ db r, (handle r db).2) init_db requests.
End WithNumber.
End Handlers.

(** ** Reachable stores

    What SQLite maintains for the table: [id] is a primary key, no id exceeds
    the AUTOINCREMENT counter, and every stored [type] passes the CHECK
    constraint. *)
Section Wf.
Context `{Number}.

Record wf (db : database) : Prop := {
  wf_nodup : NoDup (Row.id <$> rows db);
  wf_sequence : Forall (λ r, Row.id r ≤ sequence db) (rows db);
  wf_type : Forall (λ r, check_type (Row.type r) = true) (rows db);
}.

(** The statement-level readings the theorems compare the code with. *)
Definition sum_amounts (rs : list Row.t) : num :=
  foldl nadd nzero (Row.amount <$> rs).

Definition of_kind (kind : string) (rs : list Row.t) : list Row.t :=
  filter (λ r, Row.type r = kind) rs.

Definition of_group (kind category : string) (rs : list Row.t) : list Row.t :=
  filter (λ r, type_category r = (kind, category)) rs.

(** The object the constructor builds from a stored row: an empty [date] or
    [created_at] is replaced by the clock's reading. *)
Definition read_row (clk : clock) (row : Row.t) : Transaction.t :=
  {| Transaction.id := Some (Row.id row);
     Transaction.type := Row.type row;
     Transaction.amount := Row.amount row;
     Transaction.category := Row.category row;
     Transaction.description := Row.description row;
     Transaction.date := str_or (Some (Row.date row)) (today clk);
     Transaction.created_at := str_or (Some (Row.created_at row)) (now clk) |}.

(** SUM over rows, as SQLite hands it out. *)
Definition sum_total (rs : list Row.t) : option num :=
  sql_real (sum_amounts rs).

(** The total the flat summary holds for a kind: the dictionary's initial
    zero when the query returns no group of that kind, the group's sum
    otherwise. *)
Definition kind_total (kind : string) (rs : list Row.t) : option num :=
  match of_kind kind rs with
  | [] => Some nzero
  | _ :: _ => sum_total (of_kind kind rs)
  end.

(** Entries of a category summary in the order [ORDER BY total DESC]
    asks for. *)
Definition by_total_desc (e1 e2 : CategoryRow.t) : Prop :=
  null_last (CategoryRow.total e1) (CategoryRow.total e2).

(** The categories met among the rows of a kind, and the entry a category
    summary is to hold for one of them. *)
Definition categories_of (kind : string) (rs : list Row.t) : list string :=
  remove_dups (Row.category <$> of_kind kind rs).

Definition group_entry (kind : string) (rs : list Row.t) (category : string)
    : CategoryRow.t :=
  {| CategoryRow.category := category;
     CategoryRow.total := sum_total (of_group kind category rs);
     CategoryRow.count := length (of_group kind category rs) |}.

(** Transactions in the order of their own date and creation stamp. *)
Definition transaction_desc (t1 t2 : Transaction.t) : Prop :=
  String.le (Transaction.date t2) (Transaction.date t1) ∧
  (String.le (Transaction.date t1) (Transaction.date t2) →
   String.le (Transaction.created_at t2) (Transaction.created_at t1)).

(** What one more amount does to the accumulator of its group. *)
Definition bump (a : num) (o : option (num * nat)) : num * nat :=
  match o with
  | Some (s, c) => (nadd s a, S c)
  | None => (nadd nzero a, 1%nat)
  end.

(** The (kind, category) pairs of the groups in a category summary. *)
Definition summary_groups (categories : gmap string (list CategoryRow.t))
    : list (string * string) :=
  kind ← ["income"; "expense"];
  (λ e, (kind, CategoryRow.category e)) <$> default [] (categories !! kind).
End Wf.

(** ** Sample ledgers

    Concrete inputs on which the statements below are run: a clock, a store
    holding one income and one expense, update dictionaries and forms, and
    further stores, over the integer instance unless said otherwise. *)
Definition noon : clock :=
  {| today := "2024-06-01"; now := "2024-06-01T12:00:00";
     today_nonempty := ltac:(discriminate);
     now_nonempty := ltac:(discriminate) |}.

Definition salary : Row.t :=
  {| Row.id := 1; Row.type := "income"; Row.amount := 1000;
     Row.category := "Salary"; Row.description := "May";
     Row.date := "2024-05-31"; Row.created_at := "2024-05-31T09:00:00" |}.

Definition lunch : Row.t :=
  {| Row.id := 2; Row.type := "expense"; Row.amount := 300;
     Row.category := "Food"; Row.description := "";
     Row.date := "2024-06-01"; Row.created_at := "2024-06-01T08:30:00" |}.

Definition sample : database := {| rows := [salary; lunch]; sequence := 2 |}.

(** [{'category': 'X'}] and [{}] *)
Definition only_category : transaction_data :=
  {| td_type := None; td_amount := None; td_category := Some "X";
     td_description := None; td_date := None |}.

Definition no_fields : transaction_data :=
  {| td_type := None; td_amount := None; td_category := None;
     td_description := None; td_date := None |}.

(** [{'type': 'bogus'}], and a form as the edit page posts it, without a
    description. *)
Definition bogus_kind : transaction_data :=
  {| td_type := Some "bogus"; td_amount := None; td_category := None;
     td_description := None; td_date := None |}.

Definition dinner_form : gmap string string :=
  {[ "type" := "expense"; "amount" := "12"; "category" := "Food";
     "date" := "2024-06-02" ]}.

(** A ledger with several categories of each kind, for the summaries. *)
Definition entry (id : Z) (type : string) (amount : Z) (category date : string)
    : Row.t :=
  {| Row.id := id; Row.type := type; Row.amount := amount;
     Row.category := category; Row.description := "";
     Row.date := date; Row.created_at := date ++ "T10:00:00" |}.

Definition ledger : database :=
  {| rows := [entry 1 "income" 1000 "Salary" "2024-04-30";
              entry 2 "expense" 300 "Food" "2024-05-02";
              entry 3 "expense" 700 "Rent" "2024-05-03";
              entry 4 "income" 50 "Gift" "2024-05-10";
              entry 5 "expense" 120 "Food" "2024-05-12";
              entry 6 "income" 1100 "Salary" "2024-05-31";
              entry 7 "expense" 90 "Travel" "2024-06-01"];
     sequence := 7 |}.

(** Two transactions added through [POST /add] and the second one edited
    through [POST /edit/2] with an empty date field. *)
Definition form (type amount category date : string) : gmap string string :=
  {[ "type" := type; "amount" := amount; "category" := category;
     "date" := date ]}.

Definition undated : database :=
  Handlers.run
    [Handlers.PostAdd noon (form "expense" "20" "Food" "2024-01-01");
     Handlers.PostAdd noon (form "expense" "30" "Food" "2024-03-01");
     Handlers.PostEdit noon 2 (form "expense" "30" "Food" "")].

(** Two incomes added through [POST /add] with the amounts [inf] and [-inf],
    on the numbers that have them. *)
Definition infinite : @database ext_number :=
  Handlers.run (H := ext_number)
    [Handlers.PostAdd noon (form "income" "inf" "Gift" "2024-06-01");
     Handlers.PostAdd noon (form "income" "-inf" "Gift" "2024-06-01")].

(** Twelve transactions added through [POST /add]: more than the index page
    shows. *)
Definition busy : database :=
  Handlers.run (replicate 12 (Handlers.PostAdd noon dinner_form)).
(** ** Properties *)

(** *** Lists *)
Section ListFacts.
Context {A : Type}.

Lemma filter_nil_iff (P : A → Prop) `{∀ x, Decision (P x)} (l : list A) :
  filter P l = [] ↔ ∀ x, x ∈ l → ¬ P x.
Proof.
  induction l as [|x l IH]; simpl.
  - split; [|done]. intros _ y Hy. by apply not_elem_of_nil in Hy.
  - rewrite filter_cons. case_decide as HP.
    + split; [done|]. intros Hall. exfalso.
      apply (Hall x); [left|done].
    + rewrite IH. split.
      * intros Hall y [->|Hy]%elem_of_cons; auto.
      * intros Hall y Hy. apply Hall. by right.
Qed.

Lemma filter_fmap_commute (P : A → Prop) `{∀ x, Decision (P x)}
    (f : A → A) (l : list A) :
  (∀ x, P (f x) ↔ P x) → filter P (f <$> l) = f <$> filter P l.
Proof.
  intros Hf. induction l as [|x l IH]; [done|].
  rewrite fmap_cons, !filter_cons.
  destruct (decide (P x)) as [Hx|Hx].
  - rewrite decide_True by (by apply Hf). by rewrite fmap_cons, IH.
  - rewrite decide_False by (by rewrite Hf). done.
Qed.

Lemma length_filter_eq_NoDup `{EqDecision A} (x : A) (l : list A) :
  NoDup l → x ∈ l → length (filter (λ y, y = x) l) = 1%nat.
Proof.
  induction 1 as [|y l Hy Hnd IH]; intros Hin.
  - by apply not_elem_of_nil in Hin.
  - rewrite filter_cons. apply elem_of_cons in Hin as [->|Hin].
    + rewrite decide_True by done. simpl. f_equal.
      apply length_zero_iff_nil, filter_nil_iff.
      intros z Hz ->. done.
    + rewrite decide_False by (intros ->; done). auto.
Qed.

Lemma StronglySorted_filter (R : relation A) (P : A → Prop)
    `{∀ x, Decision (P x)} (l : list A) :
  StronglySorted R l → StronglySorted R (filter P l).
Proof.
  induction 1 as [|x l Hl IH Hx]; [constructor|].
  rewrite filter_cons. case_decide; [|done].
  constructor; [done|].
  apply Forall_forall. intros y [_ Hy]%list_elem_of_filter.
  by eapply Forall_forall in Hx.
Qed.
Lemma filter_all (P : A → Prop) `{∀ x, Decision (P x)} (l : list A) :
  (∀ x, x ∈ l → P x) → filter P l = l.
Proof.
  induction l as [|x l IH]; intros Hall; [done|].
  rewrite filter_cons, decide_True by (apply Hall; left).
  f_equal. apply IH. intros y Hy. apply Hall. by right.
Qed.
End ListFacts.
(** *** Reading rows *)
Section Reading.
Context `{Number}.

Lemma transaction_of_row_ok clk row :
  transaction_of_row clk row = Ok (read_row clk row).
Proof. reflexivity. Qed.

(** A row whose date and creation stamp are not empty is read as it is
    stored, whatever the clock says. *)
Lemma read_row_stored clk row :
  Row.date row ≠ "" → Row.created_at row ≠ "" →
  read_row clk row =
  {| Transaction.id := Some (Row.id row);
     Transaction.type := Row.type row;
     Transaction.amount := Row.amount row;
     Transaction.category := Row.category row;
     Transaction.description := Row.description row;
     Transaction.date := Row.date row;
     Transaction.created_at := Row.created_at row |}.
Proof.
  intros Hd Hc. unfold read_row, str_or.
  by destruct (Row.date row), (Row.created_at row).
Qed.

Lemma transactions_of_rows_ok clk rs :
  transactions_of_rows clk rs = Ok (read_row clk <$> rs).
Proof.
  induction rs as [|row rs IH]; simpl; [done|].
  by rewrite IH.
Qed.

Lemma select_by_id_in_range transaction_id db :
  in_int64 transaction_id = true →
  select_by_id transaction_id db =
  head (filter (λ r, Row.id r = transaction_id) (rows db)).
Proof. intros Hin. unfold select_by_id. by rewrite Hin. Qed.

Lemma select_by_id_out_of_range transaction_id db :
  in_int64 transaction_id = false → select_by_id transaction_id db = None.
Proof. intros Hout. unfold select_by_id. by rewrite Hout. Qed.

Lemma select_by_id_Some_in_range transaction_id db row :
  select_by_id transaction_id db = Some row → in_int64 transaction_id = true.
Proof. unfold select_by_id. by destruct (in_int64 transaction_id). Qed.

Lemma get_transaction_by_id_read clk transaction_id db :
  in_int64 transaction_id = true →
  get_transaction_by_id clk transaction_id db =
  Ok (read_row clk <$> select_by_id transaction_id db).
Proof.
  intros Hin. unfold get_transaction_by_id. rewrite Hin.
  by destruct (select_by_id transaction_id db).
Qed.

Lemma rowcount_select transaction_id db :
  in_int64 transaction_id = true →
  (0 < rowcount transaction_id db)%nat ↔
  is_Some (select_by_id transaction_id db).
Proof.
  intros Hin. rewrite select_by_id_in_range by done. unfold rowcount.
  destruct (filter _ (rows db)); simpl; split.
  - lia.
  - intros [? ?]; discriminate.
  - eauto.
  - lia.
Qed.

Lemma select_by_id_elem_of transaction_id db row :
  select_by_id transaction_id db = Some row →
  row ∈ rows db ∧ Row.id row = transaction_id.
Proof.
  intros Hsel. pose proof (select_by_id_Some_in_range _ _ _ Hsel) as Hin.
  rewrite select_by_id_in_range in Hsel by done.
  apply head_Some_elem_of in Hsel.
  by apply list_elem_of_filter in Hsel as [? ?].
Qed.

Lemma select_by_id_None transaction_id db :
  in_int64 transaction_id = true →
  select_by_id transaction_id db = None ↔
  ∀ row, row ∈ rows db → Row.id row ≠ transaction_id.
Proof.
  intros Hin. rewrite select_by_id_in_range by done.
  rewrite head_None. split.
  - intros Hnil row Hrow Hid.
    assert (row ∈ filter (λ r, Row.id r = transaction_id) (rows db)) as Hf
      by (by apply list_elem_of_filter).
    rewrite Hnil in Hf. by apply not_elem_of_nil in Hf.
  - intros Hall. apply filter_nil_iff. intros row Hrow. by apply Hall.
Qed.
End Reading.
(** *** Listing *)
Section Listing.
Context `{Number}.

#[export] Instance date_desc_transitive : Transitive date_desc.
Proof.
  intros r1 r2 r3 [Hd12 Hc12] [Hd23 Hc23]. split.
  - by transitivity (Row.date r2).
  - intros Hd13.
    transitivity (Row.created_at r2).
    + apply Hc23. by transitivity (Row.date r1).
    + apply Hc12. by transitivity (Row.date r3).
Qed.

#[export] Instance date_desc_total : Total date_desc.
Proof.
  intros r1 r2. unfold date_desc.
  destruct (decide (String.le (Row.date r1) (Row.date r2))) as [H12|H12],
           (decide (String.le (Row.date r2) (Row.date r1))) as [H21|H21].
  - destruct (total String.le (Row.created_at r1) (Row.created_at r2));
      [right|left]; done.
  - right. done.
  - left. done.
  - destruct (total String.le (Row.date r1) (Row.date r2)); done.
Qed.

Lemma get_all_transactions_unlimited clk db :
  get_all_transactions clk None db =
  Ok (read_row clk <$> merge_sort date_desc (rows db)).
Proof. unfold get_all_transactions. apply transactions_of_rows_ok. Qed.

Lemma StronglySorted_fmap_Forall {A B} (R : relation A) (S : relation B)
    (P : A → Prop) (f : A → B) (l : list A) :
  (∀ x y, P x → P y → R x y → S (f x) (f y)) →
  Forall P l → StronglySorted R l → StronglySorted S (f <$> l).
Proof.
  intros Hf HP Hs. induction Hs as [|x l Hs IH Hx]; [constructor|].
  apply Forall_cons in HP as [HPx HP].
  rewrite fmap_cons. constructor; [by apply IH|].
  apply Forall_fmap, Forall_forall. intros y Hy. simpl.
  apply Hf; [done| |].
  - by eapply Forall_forall in HP.
  - by eapply Forall_forall in Hx.
Qed.

(** What a successful create returns and stores. *)
Lemma add_transaction_stores clk ty a x category description date db :
  check_type ty = true → Transaction.float a = Ok x → is_nan x = false →
  Routes.add_transaction clk ty a category description date db =
  (Ok {| Transaction.id := Some (sequence db + 1); Transaction.type := ty;
         Transaction.amount := x; Transaction.category := category;
         Transaction.description := description;
         Transaction.date := str_or date (today clk);
         Transaction.created_at := now clk |},
   {| rows := rows db ++
        [{| Row.id := sequence db + 1; Row.type := ty; Row.amount := x;
            Row.category := category; Row.description := description;
            Row.date := str_or date (today clk);
            Row.created_at := now clk |}];
      sequence := sequence db + 1 |}).
Proof.
  intros Hck Hfloat Hnan.
  unfold Routes.add_transaction, Transaction.__init__. rewrite Hfloat.
  unfold add_transaction. simpl. by rewrite Hck, Hnan.
Qed.

(** C3, as the code has it: [get_all_transactions] without a limit returns
    every stored row exactly once, read as a [Transaction], in an order whose
    primary key is the stored date, descending, and whose secondary key is
    the stored creation stamp, descending.  When no stored date or stamp is
    empty, the returned transactions carry the stored keys and so are in
    that order by their own date and stamp.  Three transactions dated
    2024-01-01, 2024-01-03 and 2024-01-02, inserted in that order, come back
    dated 2024-01-03, 2024-01-02, 2024-01-01. *)
Theorem get_all_transactions_ordered clk db :
  (∃ rs, rs ≡ₚ rows db ∧ StronglySorted date_desc rs ∧
     get_all_transactions clk None db = Ok (read_row clk <$> rs)) ∧
  (Forall (λ r, Row.date r ≠ "" ∧ Row.created_at r ≠ "") (rows db) →
   ∃ ts, get_all_transactions clk None db = Ok ts ∧
     StronglySorted transaction_desc ts ∧
     Transaction.date <$> ts ≡ₚ Row.date <$> rows db) ∧
  (∀ clk1 clk2 clk3 x category description,
     is_nan x = false →
     let db1 := (Routes.add_transaction clk1 "expense"
                   (Transaction.AmountNum x) category description
                   (Some "2024-01-01") init_db).2 in
     let db2 := (Routes.add_transaction clk2 "expense"
                   (Transaction.AmountNum x) category description
                   (Some "2024-01-03") db1).2 in
     let db3 := (Routes.add_transaction clk3 "expense"
                   (Transaction.AmountNum x) category description
                   (Some "2024-01-02") db2).2 in
     ∃ ts, get_all_transactions clk None db3 = Ok ts ∧
       Transaction.date <$> ts = ["2024-01-03"; "2024-01-02"; "2024-01-01"]).
Proof.
  split_and!.
  - exists (merge_sort date_desc (rows db)). split_and!.
    + apply merge_sort_Permutation.
    + apply StronglySorted_merge_sort; apply _.
    + apply get_all_transactions_unlimited.
  - intros Hstored. eexists. split; [apply get_all_transactions_unlimited|].
    split.
    + apply (StronglySorted_fmap_Forall date_desc transaction_desc
               (λ r, Row.date r ≠ "" ∧ Row.created_at r ≠ "")).
      * intros r1 r2 [Hd1 Hc1] [Hd2 Hc2] Hr.
        by rewrite !read_row_stored.
      * by rewrite merge_sort_Permutation.
      * apply StronglySorted_merge_sort; apply _.
    + rewrite <- list_fmap_compose.
      transitivity (Row.date <$> merge_sort date_desc (rows db));
        [|by rewrite merge_sort_Permutation].
      assert (Transaction.date ∘ read_row clk <$>
                merge_sort date_desc (rows db) =
              Row.date <$> merge_sort date_desc (rows db)) as ->; [|done].
      apply Forall_fmap_ext_1. rewrite merge_sort_Permutation.
      eapply Forall_impl; [exact Hstored|].
      intros r [Hd Hc]. simpl. unfold str_or. by destruct (Row.date r).
  - intros clk1 clk2 clk3 x category description Hx db1 db2 db3.
    rewrite get_all_transactions_unlimited. eexists. split; [done|].
    subst db1 db2 db3.
    rewrite !(add_transaction_stores _ "expense" _ x) by done.
    by vm_compute.
Qed.

Lemma get_all_transactions_limited clk n db :
  n ≠ 0 → in_int64 n = true →
  get_all_transactions clk (Some n) db =
  Ok (read_row clk <$>
        (if n <? 0 then merge_sort date_desc (rows db)
         else take (Z.to_nat n) (merge_sort date_desc (rows db)))).
Proof.
  intros Hn Hin. unfold get_all_transactions, sql_limit.
  rewrite bool_decide_eq_false_2, Hin by done.
  apply transactions_of_rows_ok.
Qed.

(** C10: with [limit = 0] the test [if limit:] fails, no LIMIT clause is
    added, and the call returns what the call without a limit returns: every
    stored row. *)
Theorem get_all_transactions_limit_zero clk db :
  get_all_transactions clk (Some 0) db = get_all_transactions clk None db ∧
  ∃ rs, rs ≡ₚ rows db ∧
    get_all_transactions clk (Some 0) db = Ok (read_row clk <$> rs).
Proof.
  split; [done|].
  exists (merge_sort date_desc (rows db)).
  split; [apply merge_sort_Permutation|].
  apply get_all_transactions_unlimited.
Qed.
End Listing.

(** *** Deleting *)
Section Deleting.
Context `{Number}.

Lemma select_by_id_deleted transaction_id db :
  select_by_id transaction_id
    {| rows := filter (λ r, Row.id r ≠ transaction_id) (rows db);
       sequence := sequence db |} = None.
Proof.
  destruct (in_int64 transaction_id) eqn:Hin;
    [|by apply select_by_id_out_of_range].
  apply select_by_id_None; [done|]. simpl.
  by intros row [? _]%list_elem_of_filter.
Qed.

Lemma select_by_id_delete_other transaction_id other db :
  other ≠ transaction_id →
  select_by_id other
    {| rows := filter (λ r, Row.id r ≠ transaction_id) (rows db);
       sequence := sequence db |} =
  select_by_id other db.
Proof.
  intros Hne. unfold select_by_id. simpl.
  destruct (in_int64 other); [|done]. f_equal.
  rewrite list_filter_filter_l; [done|].
  intros row ->. done.
Qed.

(** C9, as the code has it: for an id that fits SQLite's 64 bits,
    [delete_transaction] raises nothing and returns [True] exactly when a
    row with the id was stored; afterwards no row has the id and the other
    ids read as before; a second call with the same id returns [False] and
    leaves the store as the first call left it.  For an id that does not
    fit, the call raises [OverflowError] and the store is as it was. *)
Theorem delete_transaction_twice transaction_id db :
  if in_int64 transaction_id then
    ∃ deleted db',
      delete_transaction transaction_id db = (Ok deleted, db') ∧
      (deleted = true ↔ is_Some (select_by_id transaction_id db)) ∧
      select_by_id transaction_id db' = None ∧
      (∀ other, other ≠ transaction_id →
         select_by_id other db' = select_by_id other db) ∧
      delete_transaction transaction_id db' = (Ok false, db')
  else delete_transaction transaction_id db = (Raise OverflowError, db).
Proof.
  unfold delete_transaction.
  destruct (in_int64 transaction_id) eqn:Hin; [|done].
  eexists _, _. split; [done|]. split_and!.
  - rewrite bool_decide_eq_true. by apply rowcount_select.
  - apply select_by_id_deleted.
  - intros other Hne. by apply select_by_id_delete_other.
  - f_equal.
    + f_equal. apply bool_decide_eq_false.
      rewrite rowcount_select by done.
      rewrite select_by_id_deleted. by intros [? ?].
    + simpl. f_equal. apply list_filter_filter_l. done.
Qed.
End Deleting.
(** *** Creating *)
Section Creating.
Context `{Number}.

Lemma check_type_spec ty :
  check_type ty = true ↔ ty = "income" ∨ ty = "expense".
Proof. unfold check_type. apply bool_decide_eq_true. Qed.

Lemma str_or_nonempty x y : y ≠ "" → str_or x y ≠ "".
Proof. by destruct x as [[|c s]|]. Qed.

Lemma str_or_Some s y : s ≠ "" → str_or (Some s) y = s.
Proof. by destruct s. Qed.

Lemma wf_init_db : wf init_db.
Proof. split; simpl; constructor. Qed.

Lemma wf_add_transaction transaction db :
  wf db → wf (add_transaction transaction db).2.
Proof.
  intros [Hnd Hseq Hty]. unfold add_transaction.
  destruct (check_type (Transaction.type transaction)) eqn:Hck; [|done].
  destruct (is_nan (Transaction.amount transaction)); [done|].
  split; simpl.
  - rewrite fmap_app. apply NoDup_app. split_and!; [done| |apply NoDup_singleton].
    intros i Hi [->|[]%elem_of_nil]%elem_of_cons.
    apply list_elem_of_fmap in Hi as (row & Hid & Hrow).
    eapply Forall_forall in Hseq; [|done]. simpl in Hid. lia.
  - apply Forall_app. split.
    + eapply Forall_impl; [exact Hseq|]. intros r Hr. simpl in *. lia.
    + repeat constructor. simpl. lia.
  - apply Forall_app. split; [done|]. by repeat constructor.
Qed.

Lemma select_by_id_fresh db row :
  Forall (λ r, Row.id r ≤ sequence db) (rows db) →
  in_int64 (sequence db + 1) = true →
  Row.id row = sequence db + 1 →
  select_by_id (sequence db + 1)
    {| rows := rows db ++ [row]; sequence := sequence db + 1 |} = Some row.
Proof.
  intros Hseq Hin Hid. rewrite select_by_id_in_range by done. simpl.
  rewrite filter_app.
  replace (filter _ (rows db)) with (@nil Row.t).
  - simpl. rewrite filter_cons, decide_True by done. done.
  - symmetry. apply filter_nil_iff. intros r Hr.
    eapply Forall_forall in Hseq; [|done]. simpl in Hseq. lia.
Qed.

(** C1, as the code has it: a kind outside income and expense is refused by
    the table's CHECK constraint, an amount that [float] cannot read is
    refused by the constructor, and in both cases the store is left as it
    was.  The sign of the amount is not looked at. *)
Theorem add_transaction_rejects clk ty a category description date db :
  check_type ty = false ∨ Transaction.float a = Raise ValueError →
  ∃ e, (e = ValueError ∨ e = IntegrityError) ∧
    Routes.add_transaction clk ty a category description date db =
    (Raise e, db).
Proof.
  intros Hbad. unfold Routes.add_transaction, Transaction.__init__.
  destruct (Transaction.float a) as [x|e] eqn:Hfloat.
  - destruct Hbad as [Hty|?]; [|done].
    exists IntegrityError. split; [by right|].
    unfold add_transaction. simpl. by rewrite Hty.
  - exists ValueError. split; [by left|].
    destruct a as [s|x]; simpl in Hfloat; [|done].
    destruct (float_of_string s); by simplify_eq.
Qed.

(** C5: created with a kind the table accepts and an amount [float] reads
    as a number, while the next id still fits 64 bits, a transaction is
    stored under a fresh id, and reading that id back, at any later time,
    gives the object [add_transaction] returned: the kind, amount, category
    and description that were passed, the date that was passed (today's when
    none or an empty one was), and the creation stamp. *)
Theorem add_then_get clk clk' ty a x category description date db :
  wf db →
  in_int64 (sequence db + 1) = true →
  check_type ty = true →
  Transaction.float a = Ok x →
  is_nan x = false →
  ∃ transaction transaction_id db',
    Routes.add_transaction clk ty a category description date db =
      (Ok transaction, db') ∧
    Transaction.id transaction = Some transaction_id ∧
    select_by_id transaction_id db = None ∧
    get_transaction_by_id clk' transaction_id db' = Ok (Some transaction) ∧
    Transaction.type transaction = ty ∧
    Transaction.amount transaction = x ∧
    Transaction.category transaction = category ∧
    Transaction.description transaction = description ∧
    Transaction.date transaction = str_or date (today clk) ∧
    Transaction.created_at transaction = now clk.
Proof.
  intros [Hnd Hseq Hty] Hin Hck Hfloat Hnan.
  rewrite (add_transaction_stores clk ty a x) by done.
  eexists _, (sequence db + 1), _. split_and!; try done.
  - apply select_by_id_None; [done|]. intros r Hr.
    eapply Forall_forall in Hseq; [|done]. simpl in Hseq. lia.
  - rewrite get_transaction_by_id_read by done.
    rewrite select_by_id_fresh by done. simpl. unfold read_row. simpl.
    rewrite !str_or_Some;
      [done|apply now_nonempty|apply str_or_nonempty, today_nonempty].
Qed.
End Creating.

(** *** Updating *)
Section Updating.
Context `{Number}.

Lemma foldl_assign_fields d row :
  foldl assign row (update_fields d) =
  {| Row.id := Row.id row;
     Row.type := default (Row.type row) (td_type d);
     Row.amount := default (Row.amount row) (td_amount d);
     Row.category := default (Row.category row) (td_category d);
     Row.description := default (Row.description row) (td_description d);
     Row.date := default (Row.date row) (td_date d);
     Row.created_at := Row.created_at row |}.
Proof.
  destruct row, d as [[?|] [?|] [?|] [?|] [?|]]; reflexivity.
Qed.

Lemma assign_id row a : Row.id (assign row a) = Row.id row.
Proof. by destruct a. Qed.

Lemma foldl_assign_id fields row :
  Row.id (foldl assign row fields) = Row.id row.
Proof.
  revert row. induction fields as [|a fields IH]; intros row; [done|].
  simpl. by rewrite IH, assign_id.
Qed.

Lemma update_row_id fields transaction_id row :
  Row.id (update_row fields transaction_id row) = Row.id row.
Proof.
  unfold update_row. case_bool_decide; [|done]. apply foldl_assign_id.
Qed.

Lemma filter_update_row fields transaction_id (l : list Row.t) :
  filter (λ r, Row.id r = transaction_id)
    (update_row fields transaction_id <$> l) =
  (λ r, foldl assign r fields) <$> filter (λ r, Row.id r = transaction_id) l.
Proof.
  induction l as [|r l IH]; [done|].
  rewrite fmap_cons, !filter_cons, update_row_id.
  case_decide as Hid; [|done].
  rewrite fmap_cons, IH. f_equal.
  unfold update_row. by rewrite bool_decide_eq_true_2.
Qed.

Lemma filter_update_row_other fields transaction_id other (l : list Row.t) :
  other ≠ transaction_id →
  filter (λ r, Row.id r = other) (update_row fields transaction_id <$> l) =
  filter (λ r, Row.id r = other) l.
Proof.
  intros Hne. induction l as [|r l IH]; [done|].
  rewrite fmap_cons, !filter_cons, update_row_id, IH.
  case_decide as Hid; [|done]. f_equal.
  unfold update_row. rewrite bool_decide_eq_false_2; [done|congruence].
Qed.

Lemma update_row_absent fields transaction_id (l : list Row.t) :
  (∀ r, r ∈ l → Row.id r ≠ transaction_id) →
  update_row fields transaction_id <$> l = l.
Proof.
  intros Habs. induction l as [|r l IH]; [done|].
  rewrite fmap_cons, IH by (intros; apply Habs; by right). f_equal.
  unfold update_row. rewrite bool_decide_eq_false_2; [done|].
  apply Habs. by left.
Qed.

Lemma foldl_assign_created_at fields row :
  Row.created_at (foldl assign row fields) = Row.created_at row.
Proof.
  revert row. induction fields as [|a fields IH]; intros row; [done|].
  simpl. rewrite IH. by destruct a.
Qed.

Lemma select_by_id_updated fields transaction_id db :
  select_by_id transaction_id
    {| rows := update_row fields transaction_id <$> rows db;
       sequence := sequence db |} =
  (λ r, foldl assign r fields) <$> select_by_id transaction_id db.
Proof.
  unfold select_by_id. simpl. destruct (in_int64 transaction_id); [|done].
  rewrite filter_update_row. by destruct (filter _ (rows db)).
Qed.

Lemma select_by_id_updated_other fields transaction_id other db :
  other ≠ transaction_id →
  select_by_id other
    {| rows := update_row fields transaction_id <$> rows db;
       sequence := sequence db |} =
  select_by_id other db.
Proof.
  intros Hne. unfold select_by_id. simpl.
  destruct (in_int64 other); [|done].
  by rewrite filter_update_row_other.
Qed.

(** The constraints the bound values are tested against, read off the
    dictionary. *)
Lemma update_fields_ok d :
  forallb assignment_ok (update_fields d) = true ↔
  (∀ v, td_type d = Some v → check_type v = true) ∧
  (∀ v, td_amount d = Some v → is_nan v = false).
Proof.
  destruct d as [[ty|] [am|] [?|] [?|] [?|]]; simpl;
    rewrite ?andb_true_r, ?andb_true_iff, ?negb_true_iff;
    (split;
     [intros Hall; split; intros v [= <-]; tauto
     |intros [Hkind Hamount]; repeat split; auto]).
Qed.

(** [update_transaction], outcome by outcome. *)
Lemma update_transaction_cases clk transaction_id d db :
  update_transaction clk transaction_id d db =
  match update_fields d with
  | [] => (Ok None, db)
  | _ :: _ =>
      if in_int64 transaction_id then
        match select_by_id transaction_id db with
        | Some row =>
            if forallb assignment_ok (update_fields d) then
              (Ok (Some (read_row clk (foldl assign row (update_fields d)))),
               {| rows := update_row (update_fields d) transaction_id
                            <$> rows db;
                  sequence := sequence db |})
            else (Raise IntegrityError, db)
        | None => (Ok None, db)
        end
      else (Raise OverflowError, db)
  end.
Proof.
  unfold update_transaction.
  destruct (update_fields d) as [|a fields] eqn:Hd; [done|].
  rewrite <- Hd. clear Hd a fields. unfold sql_update.
  destruct (in_int64 transaction_id) eqn:Hin; [|done].
  pose proof (rowcount_select transaction_id db Hin) as Hcount.
  destruct (select_by_id transaction_id db) as [row|] eqn:Hrow.
  - rewrite bool_decide_eq_true_2 by (apply Hcount; eauto). simpl.
    destruct (forallb assignment_ok (update_fields d)); simpl; [|done].
    rewrite bool_decide_eq_true_2 by (apply Hcount; eauto).
    by rewrite get_transaction_by_id_read, select_by_id_updated, Hrow.
  - assert (¬ (0 < rowcount transaction_id db)%nat) as Hzero.
    { rewrite Hcount. by intros [? ?]. }
    rewrite bool_decide_eq_false_2 by done. simpl.
    rewrite bool_decide_eq_false_2 by done.
    rewrite update_row_absent by (by apply select_by_id_None).
    by destruct db.
Qed.

(** Whatever the arguments and the outcome, [update_transaction] leaves the
    id and the creation stamp of every row as they were. *)
Lemma update_transaction_keeps_id_and_stamp clk transaction_id d db :
  (λ r, (Row.id r, Row.created_at r)) <$>
    rows (update_transaction clk transaction_id d db).2 =
  (λ r, (Row.id r, Row.created_at r)) <$> rows db.
Proof.
  rewrite update_transaction_cases.
  destruct (update_fields d) as [|a fields]; [done|].
  destruct (in_int64 transaction_id); [|done].
  destruct (select_by_id transaction_id db); [|done].
  destruct (forallb _ _); [|done]. simpl.
  rewrite <- list_fmap_compose. apply list_fmap_ext. intros i r _. simpl.
  unfold update_row. case_bool_decide; [|done].
  by rewrite foldl_assign_id, foldl_assign_created_at.
Qed.

(** C6, as the code has it: when the dictionary holds none of the allowed
    fields, and also when the id fits SQLite's 64 bits and no row has it,
    [update_transaction] raises nothing, returns [None] and leaves the store
    as it was, so the two cases give the caller the same value. *)
Theorem update_transaction_none clk transaction_id d db :
  update_fields d = [] ∨
  (in_int64 transaction_id = true ∧ select_by_id transaction_id db = None) →
  update_transaction clk transaction_id d db = (Ok None, db).
Proof.
  intros Hcase. rewrite update_transaction_cases.
  destruct (update_fields d) as [|a fields]; [done|].
  destruct Hcase as [?|[Hin Hnone]]; [done|].
  by rewrite Hin, Hnone.
Qed.

(** C4: on a stored row, with at least one allowed field supplied, a
    supplied kind the table accepts and a supplied amount that is a number,
    [update_transaction] succeeds and returns the row as read back; in the
    stored row every supplied field has the supplied value, every other
    field, the id and the creation stamp are as before, and rows with other
    ids are untouched. *)
Theorem update_transaction_replaces clk transaction_id d db row :
  select_by_id transaction_id db = Some row →
  update_fields d ≠ [] →
  (∀ v, td_type d = Some v → check_type v = true) →
  (∀ v, td_amount d = Some v → is_nan v = false) →
  ∃ row' db',
    update_transaction clk transaction_id d db =
      (Ok (Some (read_row clk row')), db') ∧
    select_by_id transaction_id db' = Some row' ∧
    Row.id row' = Row.id row ∧
    Row.created_at row' = Row.created_at row ∧
    Row.type row' = default (Row.type row) (td_type d) ∧
    Row.amount row' = default (Row.amount row) (td_amount d) ∧
    Row.category row' = default (Row.category row) (td_category d) ∧
    Row.description row' = default (Row.description row) (td_description d) ∧
    Row.date row' = default (Row.date row) (td_date d) ∧
    (∀ other, other ≠ transaction_id →
       select_by_id other db' = select_by_id other db).
Proof.
  intros Hsel Hfields Hkind Hamount.
  exists (foldl assign row (update_fields d)),
    {| rows := update_row (update_fields d) transaction_id <$> rows db;
       sequence := sequence db |}.
  split_and!.
  - rewrite update_transaction_cases.
    destruct (update_fields d) as [|a fields] eqn:Hd; [done|].
    rewrite <- Hd in *. clear Hd a fields.
    rewrite (select_by_id_Some_in_range _ _ _ Hsel), Hsel.
    by rewrite (proj2 (update_fields_ok d)).
  - by rewrite select_by_id_updated, Hsel.
  - apply foldl_assign_id.
  - by rewrite foldl_assign_fields.
  - by rewrite foldl_assign_fields.
  - by rewrite foldl_assign_fields.
  - by rewrite foldl_assign_fields.
  - by rewrite foldl_assign_fields.
  - by rewrite foldl_assign_fields.
  - intros other Hne. by apply select_by_id_updated_other.
Qed.

Lemma wf_update_transaction clk transaction_id d db :
  wf db → wf (update_transaction clk transaction_id d db).2.
Proof.
  intros Hwf. rewrite update_transaction_cases.
  destruct (update_fields d) as [|a fields] eqn:Hd; [done|].
  rewrite <- Hd. clear Hd a fields.
  destruct (in_int64 transaction_id); [|done].
  destruct (select_by_id transaction_id db); [|done].
  destruct (forallb assignment_ok (update_fields d)) eqn:Hcheck; [|done].
  apply update_fields_ok in Hcheck as [Hkind _].
  destruct Hwf as [Hnd Hseq Hty]. split; simpl.
  - rewrite <- list_fmap_compose.
    erewrite list_fmap_ext; [exact Hnd|].
    intros i r _. apply update_row_id.
  - apply Forall_fmap. eapply Forall_impl; [exact Hseq|].
    intros r Hr. simpl. by rewrite update_row_id.
  - apply Forall_fmap. eapply Forall_impl; [exact Hty|].
    intros r Hr. simpl in *. unfold update_row. case_bool_decide; [|done].
    rewrite foldl_assign_fields. simpl.
    destruct (td_type d) as [v|]; simpl; [by apply Hkind|done].
Qed.

Lemma wf_delete_transaction transaction_id db :
  wf db → wf (delete_transaction transaction_id db).2.
Proof.
  intros Hwf. unfold delete_transaction.
  destruct (in_int64 transaction_id); [|done].
  destruct Hwf as [Hnd Hseq Hty]. split; simpl.
  - eapply sublist_NoDup; [exact Hnd|].
    apply fmap_sublist, sublist_filter.
  - apply Forall_forall. intros r [_ Hr]%list_elem_of_filter.
    by eapply Forall_forall in Hseq.
  - apply Forall_forall. intros r [_ Hr]%list_elem_of_filter.
    by eapply Forall_forall in Hty.
Qed.
End Updating.
(** *** Grouping *)
Section Grouping.
Context `{Number} `{Countable K}.
Implicit Types (acc : list (K * (num * nat))) (key : Row.t → K).

Lemma list_to_map_accumulate k a acc :
  list_to_map (accumulate k a acc) =@{gmap K (num * nat)}
  <[k := bump a ((list_to_map acc : gmap K (num * nat)) !! k)]>
    (list_to_map acc).
Proof.
  induction acc as [|[k' [s c]] acc IH]; simpl; [done|].
  destruct (decide (k = k')) as [<-|Hne]; simpl.
  - by rewrite lookup_insert_eq, insert_insert_eq.
  - rewrite IH, lookup_insert_ne by done.
    by apply insert_insert_ne.
Qed.

Lemma accumulate_keys k a acc x :
  x ∈ (accumulate k a acc).*1 ↔ x = k ∨ x ∈ acc.*1.
Proof.
  induction acc as [|[k' [s c]] acc IH]; simpl.
  - rewrite list_elem_of_singleton, elem_of_nil. tauto.
  - destruct (decide (k = k')) as [<-|Hne]; simpl;
      rewrite !elem_of_cons, ?IH; tauto.
Qed.

Lemma accumulate_NoDup k a acc :
  NoDup acc.*1 → NoDup (accumulate k a acc).*1.
Proof.
  induction acc as [|[k' [s c]] acc IH]; simpl; intros Hnd.
  - apply NoDup_singleton.
  - apply NoDup_cons in Hnd as [Hk' Hnd].
    destruct (decide (k = k')) as [<-|Hne]; simpl; apply NoDup_cons.
    + done.
    + split; [|by apply IH].
      rewrite accumulate_keys. intros [->|?]; done.
Qed.

Lemma group_by_snoc key rs r :
  group_by key (rs ++ [r]) =
  accumulate (key r) (Row.amount r) (group_by key rs).
Proof. unfold group_by. by rewrite foldl_snoc. Qed.

Lemma group_by_NoDup key rs : NoDup (group_by key rs).*1.
Proof.
  induction rs as [|r rs IH] using rev_ind; [constructor|].
  rewrite group_by_snoc. by apply accumulate_NoDup.
Qed.

Lemma sum_amounts_snoc rs r :
  sum_amounts (rs ++ [r]) = nadd (sum_amounts rs) (Row.amount r).
Proof. unfold sum_amounts. by rewrite fmap_app, foldl_app. Qed.

(** The accumulator of a key holds the sum and the number of the rows with
    that key; a key has an accumulator only if some row has it. *)
Lemma group_by_lookup key rs k :
  (list_to_map (group_by key rs) : gmap K (num * nat)) !! k =
  match filter (λ r, key r = k) rs with
  | [] => None
  | _ :: _ =>
      Some (sum_amounts (filter (λ r, key r = k) rs),
            length (filter (λ r, key r = k) rs))
  end.
Proof.
  induction rs as [|r rs IH] using rev_ind; [done|].
  rewrite group_by_snoc, list_to_map_accumulate, filter_app, filter_cons.
  destruct (decide (key r = k)) as [<-|Hne].
  - rewrite lookup_insert_eq, IH, filter_nil.
    generalize (filter (λ r', key r' = key r) rs). intros [|r0 l]; [done|].
    rewrite (sum_amounts_snoc (r0 :: l)), length_app. simpl.
    do 3 f_equal. lia.
  - rewrite lookup_insert_ne, IH by done.
    by rewrite filter_nil, app_nil_r.
Qed.

Lemma elem_of_group_by key rs k s c :
  (k, (s, c)) ∈ group_by key rs ↔
  filter (λ r, key r = k) rs ≠ [] ∧
  s = sum_amounts (filter (λ r, key r = k) rs) ∧
  c = length (filter (λ r, key r = k) rs).
Proof.
  rewrite (elem_of_list_to_map (M := gmap K)) by apply group_by_NoDup.
  rewrite group_by_lookup.
  generalize (filter (λ r, key r = k) rs). intros [|r0 l].
  - split; [done|]. by intros [? _].
  - split.
    + intros [= Hs Hc]. done.
    + intros (_ & Hs & Hc). by rewrite Hs, Hc.
Qed.

Lemma elem_of_group_by_keys key rs r :
  r ∈ rs → key r ∈ (group_by key rs).*1.
Proof.
  intros Hr. apply list_elem_of_fmap.
  exists (key r, (sum_amounts (filter (λ r', key r' = key r) rs),
                  length (filter (λ r', key r' = key r) rs))).
  split; [done|]. apply elem_of_group_by. split; [|done].
  intros Hnil. rewrite filter_nil_iff in Hnil. by apply (Hnil r).
Qed.

(** The counts of the groups whose key satisfies [P] add up to the number
    of rows whose key satisfies [P]. *)
Lemma accumulate_counts (P : K → Prop) `{∀ k, Decision (P k)} k a acc :
  sum_list_with (λ g, g.2.2) (filter (λ g, P g.1) (accumulate k a acc)) =
  (sum_list_with (λ g, g.2.2) (filter (λ g, P g.1) acc) +
   if decide (P k) then 1 else 0)%nat.
Proof.
  induction acc as [|[k' [s c]] acc IH]; simpl.
  - rewrite filter_cons. simpl. by destruct (decide (P k)).
  - destruct (decide (k = k')) as [<-|Hne]; rewrite !filter_cons; simpl.
    + destruct (decide (P k)); simpl; lia.
    + destruct (decide (P k')); simpl; rewrite IH; lia.
Qed.

Lemma group_by_counts (P : K → Prop) `{∀ k, Decision (P k)} key rs :
  sum_list_with (λ g, g.2.2) (filter (λ g, P g.1) (group_by key rs)) =
  length (filter (λ r, P (key r)) rs).
Proof.
  induction rs as [|r rs IH] using rev_ind; [done|].
  rewrite group_by_snoc, accumulate_counts, IH, filter_app, length_app.
  f_equal. rewrite filter_cons. by destruct (decide (P (key r))).
Qed.
(** What the query returns: the groups with their sums as SQLite hands them
    out. *)
Lemma aggregate_keys key rs : (aggregate key rs).*1 = (group_by key rs).*1.
Proof. unfold aggregate. rewrite <- list_fmap_compose. done. Qed.

Lemma aggregate_NoDup key rs : NoDup (aggregate key rs).*1.
Proof. rewrite aggregate_keys. apply group_by_NoDup. Qed.

Lemma elem_of_aggregate key rs k t c :
  (k, (t, c)) ∈ aggregate key rs ↔
  filter (λ r, key r = k) rs ≠ [] ∧
  t = sum_total (filter (λ r, key r = k) rs) ∧
  c = length (filter (λ r, key r = k) rs).
Proof.
  unfold aggregate. rewrite list_elem_of_fmap. split.
  - intros ([k' [s c']] & [= -> -> ->] & Hg).
    apply elem_of_group_by in Hg as (Hne & -> & ->). done.
  - intros (Hne & -> & ->).
    exists (k, (sum_amounts (filter (λ r, key r = k) rs),
                length (filter (λ r, key r = k) rs))).
    split; [done|]. by apply elem_of_group_by.
Qed.

Lemma aggregate_lookup key rs k :
  (list_to_map (aggregate key rs) : gmap K (option num * nat)) !! k =
  match filter (λ r, key r = k) rs with
  | [] => None
  | _ :: _ =>
      Some (sum_total (filter (λ r, key r = k) rs),
            length (filter (λ r, key r = k) rs))
  end.
Proof.
  destruct (filter (λ r, key r = k) rs) as [|r0 l] eqn:Hf.
  - apply (not_elem_of_list_to_map_1 (M := gmap K)).
    rewrite aggregate_keys. intros Hk.
    apply list_elem_of_fmap in Hk as ([k' [s c]] & -> & Hg).
    apply elem_of_group_by in Hg as [Hne _]. done.
  - apply (elem_of_list_to_map_1 (M := gmap K)); [apply aggregate_NoDup|].
    apply elem_of_aggregate. rewrite Hf. done.
Qed.

Lemma elem_of_aggregate_keys key rs r :
  r ∈ rs → key r ∈ (aggregate key rs).*1.
Proof. rewrite aggregate_keys. apply elem_of_group_by_keys. Qed.

Lemma aggregate_counts (P : K → Prop) `{∀ k, Decision (P k)} key rs :
  sum_list_with (λ g, g.2.2) (filter (λ g, P g.1) (aggregate key rs)) =
  length (filter (λ r, P (key r)) rs).
Proof.
  rewrite <- (group_by_counts P). unfold aggregate.
  induction (group_by key rs) as [|g l IH]; [done|].
  rewrite fmap_cons, !filter_cons. simpl.
  destruct (decide (P g.1)); simpl; by rewrite IH.
Qed.
End Grouping.
(** *** The flat summary *)
Section Summarising.
Context `{Number}.

Lemma summary_row_fold (results : list (string * (option num * nat)))
    summary :
  NoDup results.*1 →
  let final := foldl summary_row summary results in
  (total_income final, income_count final) =
    default (total_income summary, income_count summary)
      ((list_to_map results : gmap string (option num * nat)) !! "income") ∧
  (total_expenses final, expense_count final) =
    default (total_expenses summary, expense_count summary)
      ((list_to_map results : gmap string (option num * nat)) !! "expense").
Proof.
  revert summary.
  induction results as [|[ty [s c]] results IH]; intros summary Hnd; [done|].
  rewrite fmap_cons in Hnd. apply NoDup_cons in Hnd as [Hty Hnd].
  apply (not_elem_of_list_to_map_1 (M := gmap string)) in Hty.
  simpl in Hty. simpl.
  destruct (IH (summary_row summary (ty, (s, c))) Hnd) as [IHi IHe].
  simpl in IHi, IHe. rewrite IHi, IHe. clear IH IHi IHe.
  unfold summary_row. simpl.
  destruct (decide (ty = "income")) as [->|Hi].
  - rewrite lookup_insert_eq, lookup_insert_ne by done.
    by rewrite Hty.
  - rewrite (lookup_insert_ne _ ty "income") by done.
    destruct (decide (ty = "expense")) as [->|He].
    + rewrite lookup_insert_eq. by rewrite Hty.
    + by rewrite lookup_insert_ne.
Qed.

Lemma aggregate_type_default kind (rs : list Row.t) :
  default (Some nzero, 0%nat)
    ((list_to_map (aggregate Row.type rs) : gmap string (option num * nat))
       !! kind) =
  (kind_total kind rs, length (of_kind kind rs)).
Proof.
  rewrite aggregate_lookup. unfold kind_total, of_kind.
  by generalize (filter (λ r, Row.type r = kind) rs); intros [|r0 l].
Qed.

(** The dictionary after the loop of [get_summary]. *)
Lemma summary_loop_fields (rs : list Row.t) :
  let summary := foldl summary_row zero_summary (aggregate Row.type rs) in
  total_income summary = kind_total "income" rs ∧
  income_count summary = length (of_kind "income" rs) ∧
  total_expenses summary = kind_total "expense" rs ∧
  expense_count summary = length (of_kind "expense" rs).
Proof.
  intros summary. subst summary.
  destruct (summary_row_fold (aggregate Row.type rs) zero_summary
              (aggregate_NoDup _ _)) as [Hi He].
  unfold zero_summary in Hi at 3 4, He at 3 4.
  cbn [total_income total_expenses income_count expense_count] in Hi, He.
  rewrite aggregate_type_default in Hi, He.
  injection Hi as Hi1 Hi2. injection He as He1 He2. done.
Qed.

(** [get_summary] returns exactly when both totals are numbers. *)
Lemma get_summary_cases db :
  get_summary db =
  match kind_total "income" (rows db), kind_total "expense" (rows db) with
  | Some income, Some expenses =>
      Ok {| total_income := Some income;
            total_expenses := Some expenses;
            net_balance := nsub income expenses;
            income_count := length (of_kind "income" (rows db));
            expense_count := length (of_kind "expense" (rows db));
            total_transactions :=
              (length (of_kind "income" (rows db)) +
               length (of_kind "expense" (rows db)))%nat |}
  | _, _ => Raise TypeError
  end.
Proof.
  unfold get_summary. cbv zeta.
  destruct (summary_loop_fields (rows db)) as (-> & -> & -> & ->).
  done.
Qed.

Lemma get_summary_Ok db summary :
  get_summary db = Ok summary →
  ∃ income expenses,
    kind_total "income" (rows db) = Some income ∧
    kind_total "expense" (rows db) = Some expenses ∧
    summary =
      {| total_income := Some income;
         total_expenses := Some expenses;
         net_balance := nsub income expenses;
         income_count := length (of_kind "income" (rows db));
         expense_count := length (of_kind "expense" (rows db));
         total_transactions :=
           (length (of_kind "income" (rows db)) +
            length (of_kind "expense" (rows db)))%nat |}.
Proof.
  rewrite get_summary_cases.
  destruct (kind_total "income" (rows db)) as [income|]; [|done].
  destruct (kind_total "expense" (rows db)) as [expenses|]; [|done].
  intros [= <-]. eauto.
Qed.

Lemma kind_total_sum kind (rs : list Row.t) total :
  kind_total kind rs = Some total → sum_amounts (of_kind kind rs) = total.
Proof.
  unfold kind_total, sum_total, sql_real.
  destruct (of_kind kind rs) as [|r l]; [by intros [= <-]|].
  destruct (is_nan _); [done|]. by intros [= <-].
Qed.
(** X19: [get_summary] returns exactly when the income total and the
    expense total are both numbers, the total of a kind being zero when no
    row has the kind and the sum of the amounts of its rows otherwise.  It
    then returns those two totals, their difference as the net balance, the
    numbers of income rows and of expense rows as the counts, and the sum of
    the two counts as the number of transactions.  When a total is NULL it
    raises [TypeError].  On an empty table it returns all six values zero. *)
Theorem get_summary_totals db :
  get_summary db =
    match kind_total "income" (rows db), kind_total "expense" (rows db) with
    | Some income, Some expenses =>
        Ok {| total_income := Some income;
              total_expenses := Some expenses;
              net_balance := nsub income expenses;
              income_count := length (of_kind "income" (rows db));
              expense_count := length (of_kind "expense" (rows db));
              total_transactions :=
                (length (of_kind "income" (rows db)) +
                 length (of_kind "expense" (rows db)))%nat |}
    | _, _ => Raise TypeError
    end ∧
  ∀ n, get_summary {| rows := []; sequence := n |} = Ok zero_summary.
Proof.
  split; [apply get_summary_cases|].
  intros n. rewrite get_summary_cases. unfold zero_summary. simpl.
  by rewrite nsub_zero.
Qed.
End Summarising.
(** *** The summary by category *)
Section Categories.
Context `{Number}.
Implicit Types (results : list ((string * string) * (option num * nat))).

#[export] Instance null_last_transitive : Transitive null_last.
Proof.
  intros [x|] [y|] [z|]; simpl; try done. intros Hyx Hzy.
  by eapply nleb_trans.
Qed.

#[export] Instance null_last_total : Total null_last.
Proof.
  intros [x|] [y|]; simpl; auto.
  destruct (nleb_total x y); auto.
Qed.

#[export] Instance total_desc_transitive : Transitive total_desc.
Proof. intros g1 g2 g3. unfold total_desc. apply null_last_transitive. Qed.

#[export] Instance total_desc_total : Total total_desc.
Proof. intros g1 g2. unfold total_desc. apply null_last_total. Qed.

Lemma categories_row_fold results
    (categories : gmap string (list CategoryRow.t)) :
  Forall (λ g, is_Some (categories !! g.1.1)) results →
  ∃ final, foldl categories_row (Ok categories) results = Ok final ∧
    ∀ kind, final !! kind =
      (λ l, l ++ (category_row <$> filter (λ g, g.1.1 = kind) results))
        <$> categories !! kind.
Proof.
  revert categories.
  induction results as [|g results IH]; intros categories Hkeys.
  - exists categories. split; [done|]. intros kind. simpl.
    destruct (categories !! kind); simpl; [|done]. by rewrite app_nil_r.
  - apply Forall_cons in Hkeys as [[l Hl] Hkeys]. simpl. rewrite Hl.
    destruct (IH (<[g.1.1 := l ++ [category_row g]]> categories))
      as (final & Hfinal & Hlookup).
    { eapply Forall_impl; [exact Hkeys|]. intros g' Hg'. simpl.
      rewrite lookup_insert. case_decide; eauto. }
    exists final. split; [done|]. intros kind. rewrite Hlookup, filter_cons.
    destruct (decide (g.1.1 = kind)) as [<-|Hne].
    + rewrite lookup_insert_eq, Hl. simpl.
      by rewrite <- app_assoc.
    + by rewrite lookup_insert_ne.
Qed.

Lemma aggregate_kind_valid db g :
  wf db → g ∈ aggregate type_category (rows db) →
  g.1.1 = "income" ∨ g.1.1 = "expense".
Proof.
  intros [_ _ Hty] Hg. destruct g as [k [s c]].
  apply elem_of_aggregate in Hg as [Hne _].
  destruct (filter (λ r, type_category r = k) (rows db)) as [|r l] eqn:Hf;
    [done|].
  assert (r ∈ filter (λ r, type_category r = k) (rows db)) as Hr
    by (rewrite Hf; left).
  apply list_elem_of_filter in Hr as [<- Hr].
  eapply Forall_forall in Hty; [|done].
  by apply check_type_spec in Hty.
Qed.

(** On a reachable store every group has a key of the dictionary, so the
    loop never raises, and each of the two lists holds the groups of its
    kind in the order the query returned them. *)
Lemma get_category_summary_ok db :
  wf db →
  let results := merge_sort total_desc (aggregate type_category (rows db)) in
  ∃ categories,
    get_category_summary db = Ok categories ∧
    ∀ kind, categories !! kind =
      if decide (kind = "income" ∨ kind = "expense")
      then Some (category_row <$> filter (λ g, g.1.1 = kind) results)
      else None.
Proof.
  intros Hwf results. unfold get_category_summary. fold results.
  destruct (categories_row_fold results
              (<["income" := []]> (<["expense" := []]> ∅)))
    as (final & Hfinal & Hlookup).
  { apply Forall_forall. intros g Hg.
    assert (g ∈ aggregate type_category (rows db)) as Hg'
      by (by rewrite <- (merge_sort_Permutation total_desc)).
    destruct (aggregate_kind_valid db g Hwf Hg') as [-> | ->]; eauto. }
  exists final. split; [done|]. intros kind. rewrite Hlookup.
  destruct (decide (kind = "income")) as [->|Hni].
  { by rewrite lookup_insert_eq. }
  rewrite lookup_insert_ne by done.
  destruct (decide (kind = "expense")) as [->|Hne].
  { by rewrite lookup_insert_eq. }
  rewrite lookup_insert_ne, lookup_empty by done.
  rewrite decide_False by tauto. done.
Qed.

Lemma tagged_category_rows kind results :
  (λ e, (kind, CategoryRow.category e)) <$>
    (category_row <$> filter (λ g, g.1.1 = kind) results) =
  (filter (λ g, g.1.1 = kind) results).*1.
Proof.
  induction results as [|[[ty c] v] results IH]; [done|].
  rewrite !filter_cons. simpl. case_decide as Hty; [|done].
  rewrite !fmap_cons, IH. simpl. by rewrite Hty.
Qed.

Lemma sum_count_category_rows results :
  sum_list_with CategoryRow.count (category_row <$> results) =
  sum_list_with (λ g, g.2.2) results.
Proof.
  induction results as [|g results IH]; [done|].
  rewrite fmap_cons. simpl. by f_equal.
Qed.

Lemma elem_of_filter_fst kind results k :
  k ∈ (filter (λ g, g.1.1 = kind) results).*1 ↔ k.1 = kind ∧ k ∈ results.*1.
Proof.
  rewrite !list_elem_of_fmap. split.
  - intros (g & -> & [Hk Hg]%list_elem_of_filter). eauto.
  - intros (Hk & g & -> & Hg). exists g. split; [done|].
    by apply list_elem_of_filter.
Qed.

Lemma NoDup_filter_fst kind results :
  NoDup results.*1 → NoDup (filter (λ g, g.1.1 = kind) results).*1.
Proof.
  intros Hnd. eapply sublist_NoDup; [exact Hnd|].
  apply fmap_sublist, sublist_filter.
Qed.

Lemma summary_groups_lookup (categories : gmap string (list CategoryRow.t))
    incomes expenses :
  categories !! "income" = Some incomes →
  categories !! "expense" = Some expenses →
  summary_groups categories =
  ((λ e, ("income", CategoryRow.category e)) <$> incomes) ++
  ((λ e, ("expense", CategoryRow.category e)) <$> expenses).
Proof.
  intros Hi He. unfold summary_groups. simpl. rewrite Hi, He. simpl.
  by rewrite app_nil_r.
Qed.

Lemma elem_of_categories_of kind (rs : list Row.t) category :
  category ∈ categories_of kind rs ↔ of_group kind category rs ≠ [].
Proof.
  unfold categories_of, of_group, of_kind.
  rewrite elem_of_remove_dups, list_elem_of_fmap, filter_nil_iff.
  split.
  - intros (r & -> & [Hty Hr]%list_elem_of_filter) Hall.
    apply (Hall r Hr). unfold type_category. by rewrite Hty.
  - intros Hex.
    destruct (filter (λ r, type_category r = (kind, category)) rs)
      as [|r l] eqn:Hf.
    { exfalso. apply Hex. intros r Hr Hk.
      assert (r ∈ filter (λ r, type_category r = (kind, category)) rs) as Hin
        by (by apply list_elem_of_filter).
      rewrite Hf in Hin. by apply elem_of_nil in Hin. }
    assert (r ∈ filter (λ r, type_category r = (kind, category)) rs) as Hin
      by (rewrite Hf; left).
    apply list_elem_of_filter in Hin as [[= Hty Hcat] Hr].
    exists r. split; [done|]. by apply list_elem_of_filter.
Qed.

(** The entries of one kind are the entries of the categories met among the
    rows of that kind, each once. *)
Lemma category_rows_entries kind (rs : list Row.t) :
  category_row <$> filter (λ g, g.1.1 = kind) (aggregate type_category rs)
  ≡ₚ group_entry kind rs <$> categories_of kind rs.
Proof.
  apply NoDup_Permutation.
  - apply (NoDup_fmap_1 (λ e, (kind, CategoryRow.category e))).
    rewrite tagged_category_rows. apply NoDup_filter_fst, aggregate_NoDup.
  - apply (NoDup_fmap_1 CategoryRow.category).
    rewrite <- list_fmap_compose.
    assert (CategoryRow.category ∘ group_entry kind rs <$>
              categories_of kind rs = categories_of kind rs) as ->.
    { by induction (categories_of kind rs) as [|c l IH];
        [|rewrite fmap_cons, IH]. }
    apply NoDup_remove_dups.
  - intros e. rewrite !list_elem_of_fmap. split.
    + intros ([[ty c] [t n]] & -> & [Hty Hg]%list_elem_of_filter).
      simpl in Hty. subst ty.
      apply elem_of_aggregate in Hg as (Hne & -> & ->).
      exists c. split; [done|]. by apply elem_of_categories_of.
    + intros (c & -> & Hc%elem_of_categories_of).
      exists ((kind, c), (sum_total (of_group kind c rs),
                          length (of_group kind c rs))).
      split; [done|]. apply list_elem_of_filter. split; [done|].
      by apply elem_of_aggregate.
Qed.
(** C8: on a reachable store the income list and the expense list of
    [get_category_summary] hold exactly one entry per category met among the
    rows of their kind, with that group's total and count, and each list is
    in descending order of [total]: every entry's total is at least the
    total of every entry after it, a NULL total counting as the least. *)
Theorem get_category_summary_sorted db :
  wf db →
  ∃ categories incomes expenses,
    get_category_summary db = Ok categories ∧
    categories !! "income" = Some incomes ∧
    categories !! "expense" = Some expenses ∧
    incomes ≡ₚ
      group_entry "income" (rows db) <$> categories_of "income" (rows db) ∧
    expenses ≡ₚ
      group_entry "expense" (rows db) <$> categories_of "expense" (rows db) ∧
    StronglySorted by_total_desc incomes ∧
    StronglySorted by_total_desc expenses.
Proof.
  intros Hwf.
  destruct (get_category_summary_ok db Hwf) as (categories & Hok & Hlookup).
  eexists categories, _, _. split; [done|].
  split; [by rewrite Hlookup, decide_True by tauto|].
  split; [by rewrite Hlookup, decide_True by tauto|].
  split_and!.
  - rewrite <- category_rows_entries.
    by rewrite (merge_sort_Permutation total_desc).
  - rewrite <- category_rows_entries.
    by rewrite (merge_sort_Permutation total_desc).
  - apply (StronglySorted_fmap _ total_desc); [by intros g1 g2|].
    apply StronglySorted_filter, StronglySorted_merge_sort; apply _.
  - apply (StronglySorted_fmap _ total_desc); [by intros g1 g2|].
    apply StronglySorted_filter, StronglySorted_merge_sort; apply _.
Qed.

(** X20: on a reachable store, the (kind, category) pair of every stored row
    is the key of exactly one group of [get_category_summary]; every group
    counts exactly the rows of its kind and category and carries their sum
    as SQLite hands it out; the counts of the income groups add up to the
    number of income rows and those of the expense groups to the number of
    expense rows, which are the two counts of [get_summary] whenever it
    returns. *)
Theorem get_category_summary_partition db :
  wf db →
  ∃ categories incomes expenses,
    get_category_summary db = Ok categories ∧
    categories !! "income" = Some incomes ∧
    categories !! "expense" = Some expenses ∧
    (∀ r, r ∈ rows db →
       length (filter (λ g, g = type_category r)
                 (summary_groups categories)) = 1%nat) ∧
    (∀ kind e, e ∈ default [] (categories !! kind) →
       CategoryRow.count e =
         length (of_group kind (CategoryRow.category e) (rows db)) ∧
       CategoryRow.total e =
         sum_total (of_group kind (CategoryRow.category e) (rows db))) ∧
    sum_list_with CategoryRow.count incomes =
      length (of_kind "income" (rows db)) ∧
    sum_list_with CategoryRow.count expenses =
      length (of_kind "expense" (rows db)) ∧
    ∀ summary, get_summary db = Ok summary →
      income_count summary = sum_list_with CategoryRow.count incomes ∧
      expense_count summary = sum_list_with CategoryRow.count expenses.
Proof.
  intros Hwf.
  destruct (get_category_summary_ok db Hwf) as (categories & Hok & Hlookup).
  set (results := merge_sort total_desc (aggregate type_category (rows db)))
    in *.
  assert (results ≡ₚ aggregate type_category (rows db)) as Hperm
    by apply merge_sort_Permutation.
  assert (NoDup results.*1) as Hnd
    by (rewrite Hperm; apply aggregate_NoDup).
  pose proof (Hlookup "income") as Hi. rewrite decide_True in Hi by tauto.
  pose proof (Hlookup "expense") as He. rewrite decide_True in He by tauto.
  assert (sum_list_with CategoryRow.count
            (category_row <$> filter (λ g, g.1.1 = "income") results) =
          length (of_kind "income" (rows db))) as Hci.
  { rewrite sum_count_category_rows, Hperm.
    exact (aggregate_counts (λ k : string * string, k.1 = "income")
             type_category (rows db)). }
  assert (sum_list_with CategoryRow.count
            (category_row <$> filter (λ g, g.1.1 = "expense") results) =
          length (of_kind "expense" (rows db))) as Hce.
  { rewrite sum_count_category_rows, Hperm.
    exact (aggregate_counts (λ k : string * string, k.1 = "expense")
             type_category (rows db)). }
  eexists categories, _, _. split_and!; [done..| | |done|done|].
  - intros r Hr. apply length_filter_eq_NoDup.
    + rewrite (summary_groups_lookup _ _ _ Hi He), !tagged_category_rows.
      apply NoDup_app. split_and!; try by apply NoDup_filter_fst.
      intros k [Hk1 _]%elem_of_filter_fst [Hk2 _]%elem_of_filter_fst.
      congruence.
    + rewrite (summary_groups_lookup _ _ _ Hi He), !tagged_category_rows.
      assert (type_category r ∈ results.*1) as Hin
        by (rewrite Hperm; by apply elem_of_aggregate_keys).
      destruct Hwf as [_ _ Hty]. eapply Forall_forall in Hty; [|done].
      apply check_type_spec in Hty.
      apply elem_of_app. rewrite !elem_of_filter_fst.
      destruct Hty; [left|right]; done.
  - intros kind e He'. rewrite Hlookup in He'.
    case_decide; [|by apply elem_of_nil in He'].
    simpl in He'.
    apply list_elem_of_fmap in He'
      as ([[ty c] [s n]] & -> & [Hkind Hg]%list_elem_of_filter).
    simpl in Hkind. subst ty. rewrite Hperm in Hg.
    apply elem_of_aggregate in Hg as (_ & -> & ->). done.
  - intros summary (income & expenses & _ & _ & ->)%get_summary_Ok.
    simpl. by rewrite Hci, Hce.
Qed.
End Categories.
(** *** The statements on the sample ledgers *)
Lemma wf_sample : wf sample.
Proof.
  split; simpl.
  - apply (bool_decide_unpack _). by vm_compute.
  - repeat constructor; simpl; lia.
  - by repeat constructor.
Qed.

Lemma wf_ledger : wf ledger.
Proof.
  split; simpl.
  - apply (bool_decide_unpack _). by vm_compute.
  - repeat constructor; simpl; lia.
  - by repeat constructor.
Qed.

(** C1 does not hold as stated.  The store accepts an expense of -5, given
    as a number or as form text:
    the amount is not non-negative, yet the call returns the stored
    transaction and the table holds one more row. *)
Lemma add_transaction_negative_amount :
  nleb nzero (-5) = false ∧
  Transaction.float (Transaction.AmountNum (-5)) = Ok (-5) ∧
  Transaction.float (Transaction.AmountStr "-5") = Ok (-5) ∧
  ∃ transaction,
    Routes.add_transaction noon "expense" (Transaction.AmountNum (-5)) "Food"
      "" (Some "2024-06-01") sample =
    (Ok transaction,
     {| rows := [salary; lunch;
                 {| Row.id := 3; Row.type := "expense"; Row.amount := -5;
                    Row.category := "Food"; Row.description := "";
                    Row.date := "2024-06-01";
                    Row.created_at := "2024-06-01T12:00:00" |}];
        sequence := 3 |}).
Proof. split_and!; [reflexivity..|]. eexists. reflexivity. Qed.

Lemma add_transaction_rejects_witness :
  (check_type "bogus" = false ∨
   Transaction.float (Transaction.AmountNum 10) = Raise ValueError) ∧
  ∃ e, (e = ValueError ∨ e = IntegrityError) ∧
    Routes.add_transaction noon "bogus" (Transaction.AmountNum 10) "Food" ""
      None sample = (Raise e, sample).
Proof.
  split; [left; reflexivity|].
  apply add_transaction_rejects. left. reflexivity.
Defined.

(** C2, at two incomes with the amounts [inf] and [-inf], both stored
    through [POST /add]: the income sum is not a number, SQLite returns it
    as NULL, and [get_summary] returns no summary: the subtraction for the
    net balance raises [TypeError]. *)
Theorem get_summary_infinite_amounts :
  Row.type <$> rows infinite = ["income"; "income"] ∧
  Row.amount <$> rows infinite = [PInf; NInf] ∧
  sum_total (of_kind "income" (rows infinite)) = None ∧
  get_summary infinite = Raise TypeError.
Proof. split_and!; reflexivity. Qed.

(** C3 does not hold as stated.  After two adds and an edit that sets the
    date of the second transaction to the empty string, the listing returns
    the transaction dated 2024-01-01 first and then the edited one, which is
    read with today's date, 2024-06-01: the returned dates are not in
    descending order. *)
Lemma get_all_transactions_empty_date :
  Row.date <$> rows undated = ["2024-01-01"; ""] ∧
  ∃ transactions,
    get_all_transactions noon None undated = Ok transactions ∧
    Transaction.date <$> transactions = ["2024-01-01"; "2024-06-01"] ∧
    ¬ StronglySorted transaction_desc transactions.
Proof.
  split; [reflexivity|]. eexists. split; [by vm_compute|].
  split; [reflexivity|]. intros Hsorted.
  inversion Hsorted as [|t ts _ Hall]; subst.
  inversion Hall as [|t' ts' [Hle _] _]; subst.
  refine (bool_decide_eq_false_1 _ _ Hle). reflexivity.
Qed.

Lemma get_all_transactions_ordered_witness :
  Forall (λ r, Row.date r ≠ "" ∧ Row.created_at r ≠ "") (rows ledger) ∧
  ∃ transactions,
    get_all_transactions noon None ledger = Ok transactions ∧
    StronglySorted transaction_desc transactions ∧
    Transaction.date <$> transactions ≡ₚ Row.date <$> rows ledger.
Proof.
  assert (Forall (λ r, Row.date r ≠ "" ∧ Row.created_at r ≠ "")
            (rows ledger)) as Hdated by (by repeat constructor).
  split; [exact Hdated|].
  exact (proj1 (proj2 (get_all_transactions_ordered noon ledger)) Hdated).
Defined.

Lemma update_transaction_replaces_witness :
  select_by_id 2 sample = Some lunch ∧
  update_fields only_category ≠ [] ∧
  (∀ v, td_type only_category = Some v → check_type v = true) ∧
  (∀ v, td_amount only_category = Some v → is_nan v = false) ∧
  ∃ row' db',
    update_transaction noon 2 only_category sample =
      (Ok (Some (read_row noon row')), db') ∧
    select_by_id 2 db' = Some row' ∧
    Row.id row' = Row.id lunch ∧
    Row.created_at row' = Row.created_at lunch ∧
    Row.type row' = default (Row.type lunch) (td_type only_category) ∧
    Row.amount row' = default (Row.amount lunch) (td_amount only_category) ∧
    Row.category row' =
      default (Row.category lunch) (td_category only_category) ∧
    Row.description row' =
      default (Row.description lunch) (td_description only_category) ∧
    Row.date row' = default (Row.date lunch) (td_date only_category) ∧
    (∀ other, other ≠ 2 → select_by_id other db' = select_by_id other sample).
Proof.
  split_and!; [reflexivity|discriminate|discriminate|discriminate|].
  apply update_transaction_replaces;
    [reflexivity|discriminate|discriminate|discriminate].
Defined.

Lemma add_then_get_witness :
  wf sample ∧ in_int64 (sequence sample + 1) = true ∧
  check_type "income" = true ∧
  Transaction.float (Transaction.AmountStr "1000") = Ok 1000 ∧
  is_nan 1000 = false ∧
  ∃ transaction transaction_id db',
    Routes.add_transaction noon "income" (Transaction.AmountStr "1000")
      "Salary" "June" None sample = (Ok transaction, db') ∧
    Transaction.id transaction = Some transaction_id ∧
    select_by_id transaction_id sample = None ∧
    get_transaction_by_id noon transaction_id db' = Ok (Some transaction) ∧
    Transaction.type transaction = "income" ∧
    Transaction.amount transaction = 1000 ∧
    Transaction.category transaction = "Salary" ∧
    Transaction.description transaction = "June" ∧
    Transaction.date transaction = str_or None (today noon) ∧
    Transaction.created_at transaction = now noon.
Proof.
  split_and!; [apply wf_sample|reflexivity..|].
  apply add_then_get; [apply wf_sample|reflexivity..].
Defined.

(** C6 does not hold as stated.  Updating an id that is not stored and
    updating a stored id with no field give the same outcome: no exception,
    the value [None], the store as it was. *)
Lemma update_transaction_same_outcome :
  select_by_id 7 sample = None ∧ update_fields only_category ≠ [] ∧
  select_by_id 2 sample = Some lunch ∧ update_fields no_fields = [] ∧
  update_transaction noon 7 only_category sample = (Ok None, sample) ∧
  update_transaction noon 2 no_fields sample = (Ok None, sample).
Proof. split_and!; [reflexivity|discriminate|reflexivity..]. Qed.

Lemma update_transaction_none_witness :
  (update_fields only_category = [] ∨
   (in_int64 7 = true ∧ select_by_id 7 sample = None)) ∧
  update_transaction noon 7 only_category sample = (Ok None, sample).
Proof.
  split; [right; split; reflexivity|].
  apply update_transaction_none. right. split; reflexivity.
Defined.

(** C7, at the same two incomes of [inf] and [-inf]: the category summary
    puts both rows in the one income group Gift, with count 2 and a NULL
    total, while [get_summary] raises [TypeError] and so has no income count
    for the group counts to add up to. *)
Theorem get_category_summary_infinite_amounts :
  ∃ categories,
    get_category_summary infinite = Ok categories ∧
    categories !! "income" =
      Some [{| CategoryRow.category := "Gift"; CategoryRow.total := None;
               CategoryRow.count := 2 |}] ∧
    categories !! "expense" = Some [] ∧
    get_summary infinite = Raise TypeError.
Proof. eexists. split_and!; reflexivity. Qed.

Lemma get_category_summary_sorted_witness :
  wf ledger ∧
  (∃ categories,
     get_category_summary ledger = Ok categories ∧
     categories !! "income" =
       Some [{| CategoryRow.category := "Salary";
                CategoryRow.total := Some 2100; CategoryRow.count := 2 |};
             {| CategoryRow.category := "Gift";
                CategoryRow.total := Some 50; CategoryRow.count := 1 |}] ∧
     categories !! "expense" =
       Some [{| CategoryRow.category := "Rent";
                CategoryRow.total := Some 700; CategoryRow.count := 1 |};
             {| CategoryRow.category := "Food";
                CategoryRow.total := Some 420; CategoryRow.count := 2 |};
             {| CategoryRow.category := "Travel";
                CategoryRow.total := Some 90; CategoryRow.count := 1 |}]) ∧
  ∃ categories incomes expenses,
    get_category_summary ledger = Ok categories ∧
    categories !! "income" = Some incomes ∧
    categories !! "expense" = Some expenses ∧
    incomes ≡ₚ
      group_entry "income" (rows ledger) <$>
        categories_of "income" (rows ledger) ∧
    expenses ≡ₚ
      group_entry "expense" (rows ledger) <$>
        categories_of "expense" (rows ledger) ∧
    StronglySorted by_total_desc incomes ∧
    StronglySorted by_total_desc expenses.
Proof.
  split; [apply wf_ledger|].
  split; [eexists; split_and!; reflexivity|].
  apply get_category_summary_sorted, wf_ledger.
Defined.

(** C9 does not hold as stated.  The id 2^63, which the route
    [/delete/9223372036854775808] passes on, does not fit SQLite's 64 bits:
    [delete_transaction] raises [OverflowError] instead of returning
    [False], and the route, which has no [try], ends in that exception. *)
Lemma delete_transaction_overflow :
  select_by_id (2 ^ 63) sample = None ∧
  delete_transaction (2 ^ 63) sample = (Raise OverflowError, sample) ∧
  Handlers.delete_transaction (2 ^ 63) sample =
    (Handlers.Uncaught OverflowError, sample).
Proof. split_and!; reflexivity. Qed.
(** ** Further properties of the ledger *)

(** *** Dictionaries and lookups *)
Section Lookups.
Context `{Number}.

Lemma init_dated clk i ty a category description date created_at t :
  Transaction.__init__ clk i ty a category description date created_at = Ok t →
  Transaction.date t ≠ "" ∧ Transaction.created_at t ≠ "".
Proof.
  unfold Transaction.__init__. destruct (Transaction.float a); [|done].
  intros [= <-]. simpl. split.
  - apply str_or_nonempty, today_nonempty.
  - apply str_or_nonempty, now_nonempty.
Qed.

(** X1: a transaction built by the constructor survives [to_dict] followed
    by [from_dict] unchanged, whatever the clock reads at that later time. *)
Theorem from_dict_to_dict clk clk' i ty a category description date
    created_at t :
  Transaction.__init__ clk i ty a category description date created_at = Ok t →
  from_dict clk' (to_dict t) = Ok t.
Proof.
  intros Hinit. destruct (init_dated _ _ _ _ _ _ _ _ _ Hinit) as [Hd Hc].
  unfold from_dict, to_dict, Transaction.__init__. simpl.
  rewrite !str_or_Some by done. by destruct t.
Qed.

Lemma filter_key_NoDup {A B} `{EqDecision B} (f : A → B) (l : list A) x :
  NoDup (f <$> l) → x ∈ l → filter (λ y, f y = f x) l = [x].
Proof.
  induction l as [|y l IH]; intros Hnd Hx.
  - by apply elem_of_nil in Hx.
  - rewrite fmap_cons in Hnd. apply NoDup_cons in Hnd as [Hy Hnd].
    rewrite filter_cons. apply elem_of_cons in Hx as [->|Hx].
    + rewrite decide_True by done. f_equal.
      apply filter_nil_iff. intros z Hz Heq. apply Hy.
      rewrite <- Heq. by apply list_elem_of_fmap_2.
    + rewrite decide_False; [by apply IH|].
      intros Heq. apply Hy. rewrite Heq. by apply list_elem_of_fmap_2.
Qed.

Lemma select_by_id_stored db row :
  wf db → row ∈ rows db → in_int64 (Row.id row) = true →
  select_by_id (Row.id row) db = Some row.
Proof.
  intros [Hnd _ _] Hrow Hin. rewrite select_by_id_in_range by done.
  by rewrite (filter_key_NoDup Row.id).
Qed.

(** X2: on a reachable store [get_transaction_by_id] finds every stored row
    under its id and returns it as read by the constructor; for an id that
    fits SQLite's 64 bits and that no row carries it returns [None]; for an
    id that does not fit it raises [OverflowError]. *)
Theorem get_transaction_by_id_stored clk db :
  wf db →
  (∀ row, row ∈ rows db → in_int64 (Row.id row) = true →
     get_transaction_by_id clk (Row.id row) db =
       Ok (Some (read_row clk row))) ∧
  (∀ transaction_id,
     in_int64 transaction_id = true →
     (∀ row, row ∈ rows db → Row.id row ≠ transaction_id) →
     get_transaction_by_id clk transaction_id db = Ok None) ∧
  (∀ transaction_id,
     in_int64 transaction_id = false →
     get_transaction_by_id clk transaction_id db = Raise OverflowError).
Proof.
  intros Hwf. split_and!.
  - intros row Hrow Hin.
    by rewrite get_transaction_by_id_read, select_by_id_stored.
  - intros transaction_id Hin Habs.
    rewrite get_transaction_by_id_read by done.
    by rewrite (proj2 (select_by_id_None transaction_id db Hin) Habs).
  - intros transaction_id Hout. unfold get_transaction_by_id.
    by rewrite Hout.
Qed.

(** X3: with a positive [limit] that fits SQLite's 64 bits the listing is
    the first [limit] entries of the unlimited listing, so it has [limit]
    entries, or all of them when the table holds fewer; with a larger
    [limit] the query is refused with [IntegrityError]. *)
Theorem get_all_transactions_limit clk n db :
  0 < n →
  ∃ all,
    get_all_transactions clk None db = Ok all ∧
    get_all_transactions clk (Some n) db =
      (if in_int64 n then Ok (take (Z.to_nat n) all)
       else Raise IntegrityError) ∧
    length (take (Z.to_nat n) all) = Nat.min (Z.to_nat n) (length (rows db)).
Proof.
  intros Hn. eexists. split; [apply get_all_transactions_unlimited|]. split.
  - destruct (in_int64 n) eqn:Hin.
    + rewrite get_all_transactions_limited by (done || lia).
      rewrite (proj2 (Z.ltb_ge n 0)) by lia. by rewrite fmap_take.
    + unfold get_all_transactions, sql_limit.
      rewrite bool_decide_eq_false_2, Hin by lia. done.
  - rewrite length_take, length_fmap.
    by rewrite (Permutation_length (merge_sort_Permutation date_desc (rows db))).
Qed.
End Lookups.
(** *** Updating, once more *)
Section UpdateOutcomes.
Context `{Number}.

(** X4: [update_transaction] is all or nothing.  Either it returns the
    transaction that [get_transaction_by_id] then reads under that id, or it
    returns [None], or it raises [IntegrityError] or [OverflowError]; in the
    last three cases the store is exactly as it was. *)
Theorem update_transaction_outcome clk transaction_id d db :
  (∃ transaction db',
     update_transaction clk transaction_id d db = (Ok (Some transaction), db') ∧
     get_transaction_by_id clk transaction_id db' = Ok (Some transaction)) ∨
  update_transaction clk transaction_id d db = (Ok None, db) ∨
  update_transaction clk transaction_id d db = (Raise IntegrityError, db) ∨
  update_transaction clk transaction_id d db = (Raise OverflowError, db).
Proof.
  rewrite update_transaction_cases.
  destruct (update_fields d) as [|a fields] eqn:Hfields; [by right; left|].
  rewrite <- Hfields. clear Hfields a fields.
  destruct (in_int64 transaction_id) eqn:Hin; [|by do 3 right].
  destruct (select_by_id transaction_id db) as [row|] eqn:Hrow;
    [|by right; left].
  destruct (forallb _ _); [|by right; right; left].
  left. eexists _, _. split; [done|].
  rewrite get_transaction_by_id_read by done.
  by rewrite select_by_id_updated, Hrow.
Qed.

(** X5: a supplied kind that is neither income nor expense makes the update
    of a stored row fail with [IntegrityError]; nothing is written, not even
    the other supplied fields. *)
Theorem update_transaction_bad_kind clk transaction_id d db v :
  is_Some (select_by_id transaction_id db) →
  td_type d = Some v →
  check_type v = false →
  update_transaction clk transaction_id d db = (Raise IntegrityError, db).
Proof.
  intros [row Hrow] Hv Hbad. rewrite update_transaction_cases.
  destruct (update_fields d) as [|a fields] eqn:Hfields.
  { unfold update_fields in Hfields. by rewrite Hv in Hfields. }
  rewrite <- Hfields. clear Hfields a fields.
  rewrite (select_by_id_Some_in_range _ _ _ Hrow), Hrow.
  destruct (forallb _ _) eqn:Hcheck; [|done]. exfalso.
  apply update_fields_ok in Hcheck as [Hkind _].
  specialize (Hkind v Hv). congruence.
Qed.
End UpdateOutcomes.
(** *** The handlers *)
Section HandlerOutcomes.
Context `{Number}.

(** X6: [POST /add] either redirects, and then the form carried a kind the
    table accepts, an amount [float] reads, a category and a date, and the
    store holds exactly one more row, with the next id and the form's values;
    or it answers 400 with the exception's text and the store is as it
    was. *)
Theorem handler_add_transaction_outcome clk form db :
  ((Handlers.add_transaction clk form db).1 = Handlers.Redirect ∧
   ∃ ty amount a category date,
     form !! "type" = Some ty ∧ check_type ty = true ∧
     form !! "amount" = Some amount ∧ float_of_string amount = Some a ∧
     form !! "category" = Some category ∧
     form !! "date" = Some date ∧
     (Handlers.add_transaction clk form db).2 =
       {| rows := rows db ++
            [{| Row.id := sequence db + 1; Row.type := ty; Row.amount := a;
                Row.category := category;
                Row.description := default "" (form !! "description");
                Row.date := str_or (Some date) (today clk);
                Row.created_at := now clk |}];
          sequence := sequence db + 1 |}) ∨
  (∃ e, (Handlers.add_transaction clk form db).1 =
          Handlers.Json 400 (Handlers.StrOf e) ∧
        (Handlers.add_transaction clk form db).2 = db).
Proof.
  unfold Handlers.add_transaction.
  destruct (form !! "type") as [ty|]; [|right; eauto].
  destruct (form !! "amount") as [amount|]; [|right; eauto].
  destruct (form !! "category") as [category|]; [|right; eauto].
  destruct (form !! "date") as [date|]; [|right; eauto].
  unfold Routes.add_transaction, Transaction.__init__, Transaction.float.
  destruct (float_of_string amount) as [a|] eqn:Ha; [|right; eauto].
  unfold add_transaction. simpl.
  destruct (check_type ty) eqn:Hty; [|right; eauto].
  destruct (is_nan a) eqn:Hnan; [right; eauto|].
  left. split; [done|]. by eexists ty, amount, a, category, date.
Qed.

(** The update of a stored row with values the table accepts. *)
Lemma update_transaction_checked clk transaction_id d db row :
  select_by_id transaction_id db = Some row →
  update_fields d ≠ [] →
  forallb assignment_ok (update_fields d) = true →
  update_transaction clk transaction_id d db =
    (Ok (Some (read_row clk (foldl assign row (update_fields d)))),
     {| rows := update_row (update_fields d) transaction_id <$> rows db;
        sequence := sequence db |}).
Proof.
  intros Hrow Hfields Hcheck. rewrite update_transaction_cases.
  destruct (update_fields d) as [|a fields] eqn:Hd; [done|].
  rewrite <- Hd in *. clear Hd a fields.
  by rewrite (select_by_id_Some_in_range _ _ _ Hrow), Hrow, Hcheck.
Qed.

(** X7: [POST /edit/<id>] on a stored id, with a complete form, an amount
    [float] reads as a number and a kind the table accepts, redirects; the
    stored row then carries the form's five values (an absent description as
    the empty string) under its old id and creation stamp, and the other ids
    read as before. *)
Theorem handler_update_transaction_stores clk transaction_id form db row ty
    amount a category date :
  select_by_id transaction_id db = Some row →
  form !! "type" = Some ty → check_type ty = true →
  form !! "amount" = Some amount → float_of_string amount = Some a →
  is_nan a = false →
  form !! "category" = Some category →
  form !! "date" = Some date →
  ∃ db',
    Handlers.update_transaction clk transaction_id form db =
      (Handlers.Redirect, db') ∧
    select_by_id transaction_id db' =
      Some {| Row.id := Row.id row; Row.type := ty; Row.amount := a;
              Row.category := category;
              Row.description := default "" (form !! "description");
              Row.date := date; Row.created_at := Row.created_at row |} ∧
    ∀ other, other ≠ transaction_id →
      select_by_id other db' = select_by_id other db.
Proof.
  intros Hrow Hty Hck Hamount Ha Hnan Hcat Hdate.
  unfold Handlers.update_transaction, Transaction.float.
  rewrite Hty, Hamount, Ha, Hcat, Hdate.
  erewrite update_transaction_checked; [|exact Hrow|done|].
  - eexists. split; [done|]. split.
    + by rewrite select_by_id_updated, Hrow.
    + intros other Hne. by apply select_by_id_updated_other.
  - apply update_fields_ok. simpl. split; intros v [= <-]; done.
Qed.

(** X8: whatever the form, [POST /edit/<id>] either redirects or answers 400,
    and when it answers 400 the store is exactly as it was. *)
Theorem handler_update_transaction_outcome clk transaction_id form db :
  (Handlers.update_transaction clk transaction_id form db).1 =
    Handlers.Redirect ∨
  ∃ error,
    Handlers.update_transaction clk transaction_id form db =
      (Handlers.Json 400 error, db).
Proof.
  unfold Handlers.update_transaction.
  destruct (form !! "type") as [ty|]; [|right; eauto].
  destruct (form !! "amount") as [amount|]; [|right; eauto].
  destruct (Transaction.float _) as [a|e]; [|right; eauto].
  destruct (form !! "category") as [category|]; [|right; eauto].
  destruct (form !! "date") as [date|]; [|right; eauto].
  rewrite update_transaction_cases.
  destruct (update_fields _); [right; eauto|].
  destruct (in_int64 transaction_id); [|right; eauto].
  destruct (select_by_id transaction_id db); [|right; eauto].
  destruct (forallb _ _); [by left|right; eauto].
Qed.

Lemma delete_transaction_absent transaction_id db :
  in_int64 transaction_id = true →
  select_by_id transaction_id db = None →
  delete_transaction transaction_id db = (Ok false, db).
Proof.
  intros Hin Hnone. unfold delete_transaction. rewrite Hin.
  rewrite bool_decide_eq_false_2
    by (rewrite rowcount_select, Hnone by done; by intros [? ?]).
  rewrite filter_all by by apply select_by_id_None.
  by destruct db.
Qed.

(** X9: for an id that fits SQLite's 64 bits and is not stored, the edit
    page and the delete route answer 404 "Transaction not found", while the
    update route, given a complete form with a readable amount, answers 400
    "Failed to update transaction".  For an id that does not fit, the edit
    page and the delete route end in an uncaught [OverflowError] and the
    update route answers 400 with that exception's text.  None of them
    changes the store. *)
Theorem handlers_not_found clk transaction_id form db ty amount a category
    date :
  select_by_id transaction_id db = None →
  form !! "type" = Some ty →
  form !! "amount" = Some amount → float_of_string amount = Some a →
  form !! "category" = Some category →
  form !! "date" = Some date →
  if in_int64 transaction_id then
    Handlers.edit_transaction clk transaction_id db =
      Handlers.Json 404 (Handlers.Text "Transaction not found") ∧
    Handlers.delete_transaction transaction_id db =
      (Handlers.Json 404 (Handlers.Text "Transaction not found"), db) ∧
    Handlers.update_transaction clk transaction_id form db =
      (Handlers.Json 400 (Handlers.Text "Failed to update transaction"), db)
  else
    Handlers.edit_transaction clk transaction_id db =
      Handlers.Uncaught OverflowError ∧
    Handlers.delete_transaction transaction_id db =
      (Handlers.Uncaught OverflowError, db) ∧
    Handlers.update_transaction clk transaction_id form db =
      (Handlers.Json 400 (Handlers.StrOf OverflowError), db).
Proof.
  intros Hnone Hty Hamount Ha Hcat Hdate.
  destruct (in_int64 transaction_id) eqn:Hin; split_and!.
  - unfold Handlers.edit_transaction.
    by rewrite get_transaction_by_id_read, Hnone.
  - unfold Handlers.delete_transaction.
    by rewrite delete_transaction_absent.
  - unfold Handlers.update_transaction, Transaction.float.
    rewrite Hty, Hamount, Ha, Hcat, Hdate.
    rewrite update_transaction_cases. simpl. by rewrite Hin, Hnone.
  - unfold Handlers.edit_transaction, get_transaction_by_id.
    by rewrite Hin.
  - unfold Handlers.delete_transaction, delete_transaction.
    by rewrite Hin.
  - unfold Handlers.update_transaction, Transaction.float.
    rewrite Hty, Hamount, Ha, Hcat, Hdate.
    rewrite update_transaction_cases. simpl. by rewrite Hin.
Qed.
End HandlerOutcomes.
(** *** Stores reached through the handlers *)
Section Reachable.
Context `{Number}.

Lemma wf_handle r db : wf db → wf (Handlers.handle r db).2.
Proof.
  intros Hwf. destruct r as [clk form|clk transaction_id form|transaction_id];
    simpl.
  - unfold Handlers.add_transaction.
    repeat (match goal with
            | |- context [form !! ?k] => destruct (form !! k)
            end; [|done]).
    unfold Routes.add_transaction.
    destruct (Transaction.__init__ _ _ _ _ _ _ _ _) as [t|e]; [|done].
    pose proof (wf_add_transaction t db Hwf) as Hadd.
    by destruct (add_transaction t db) as [[?|?] ?].
  - unfold Handlers.update_transaction.
    destruct (form !! "type"); [|done].
    destruct (form !! "amount"); [|done].
    destruct (Transaction.float _); [|done].
    destruct (form !! "category"); [|done].
    destruct (form !! "date"); [|done].
    match goal with
    | |- context [update_transaction clk transaction_id ?d db] =>
        pose proof (wf_update_transaction clk transaction_id d db Hwf) as Hupd;
        by destruct (update_transaction clk transaction_id d db)
          as [[[?|]|?] ?]
    end.
  - unfold Handlers.delete_transaction.
    pose proof (wf_delete_transaction transaction_id db Hwf) as Hdel.
    by destruct (delete_transaction transaction_id db) as [[[|]|?] ?].
Qed.

Lemma wf_run requests : wf (Handlers.run requests).
Proof.
  unfold Handlers.run.
  induction requests as [|r requests IH] using rev_ind.
  - apply wf_init_db.
  - rewrite foldl_snoc. by apply wf_handle.
Qed.

(** X10: after any sequence of add, edit and delete requests on a fresh
    database, no two stored rows share an id, no stored id exceeds the
    AUTOINCREMENT counter, and every stored kind is income or expense. *)
Theorem run_wf requests : wf (Handlers.run requests).
Proof. apply wf_run. Qed.

(** X11: an id is not handed out twice.  On a reachable store, a
    transaction whose kind the table accepts and whose amount is a number,
    added after any delete, gets an id that no row of the store carried
    before the delete, the deleted row included. *)
Theorem add_after_delete_fresh_id transaction transaction_id db :
  wf db →
  check_type (Transaction.type transaction) = true →
  is_nan (Transaction.amount transaction) = false →
  ∃ transaction' new_id db',
    add_transaction transaction (delete_transaction transaction_id db).2 =
      (Ok transaction', db') ∧
    Transaction.id transaction' = Some new_id ∧
    ∀ row, row ∈ rows db → Row.id row ≠ new_id.
Proof.
  intros [_ Hseq _] Hck Hnan. unfold add_transaction. rewrite Hck, Hnan.
  eexists _, (sequence db + 1), _. split_and!.
  - done.
  - unfold delete_transaction. by destruct (in_int64 transaction_id).
  - intros row Hrow. eapply Forall_forall in Hseq; [|done].
    simpl in Hseq. lia.
Qed.

Lemma length_filter_split {A} (P Q : A → Prop)
    `{∀ x, Decision (P x)} `{∀ x, Decision (Q x)} (l : list A) :
  Forall (λ x, (P x ∨ Q x) ∧ ¬ (P x ∧ Q x)) l →
  (length (filter P l) + length (filter Q l))%nat = length l.
Proof.
  induction 1 as [|x l [Hor Hnand] _ IH]; [done|].
  rewrite !filter_cons.
  destruct (decide (P x)), (decide (Q x)); simpl; try lia; tauto.
Qed.

Lemma length_of_kinds db :
  wf db →
  (length (of_kind "income" (rows db)) +
   length (of_kind "expense" (rows db)))%nat = length (rows db).
Proof.
  intros [_ _ Hty]. apply length_filter_split.
  eapply Forall_impl; [exact Hty|]. intros r Hr. simpl in *.
  apply check_type_spec in Hr. split; [done|].
  intros [Hi He]. congruence.
Qed.

(** X12: on a reachable store whose two totals are numbers, [get_summary]
    returns a summary whose number of transactions is the number of stored
    rows. *)
Theorem get_summary_counts_all db income expenses :
  wf db →
  kind_total "income" (rows db) = Some income →
  kind_total "expense" (rows db) = Some expenses →
  ∃ summary,
    get_summary db = Ok summary ∧
    total_transactions summary = length (rows db).
Proof.
  intros Hwf Hi He. rewrite get_summary_cases, Hi, He.
  eexists. split; [done|]. simpl. by apply length_of_kinds.
Qed.

Lemma kind_total_snoc kind (rs : list Row.t) r total :
  kind_total kind rs = Some total →
  kind_total kind (rs ++ [r]) =
  if decide (Row.type r = kind) then sql_real (nadd total (Row.amount r))
  else Some total.
Proof.
  intros Htotal. pose proof (kind_total_sum _ _ _ Htotal) as Hsum.
  unfold kind_total, of_kind in *. rewrite filter_app, filter_cons, filter_nil.
  case_decide.
  - destruct (filter _ rs ++ [r]) as [|r0 l] eqn:Hl.
    { by apply app_nil in Hl as [_ ?]. }
    rewrite <- Hl. unfold sum_total.
    by rewrite sum_amounts_snoc, Hsum.
  - by rewrite app_nil_r.
Qed.

(** X13: when [get_summary] returns on a store, it returns after one more
    transaction has been added exactly when the new total of the added kind
    is a number; the total of that kind has then grown by the amount, its
    count and the number of transactions by one, the net balance is the
    difference of the new totals, and the entries of the other kind are as
    they were. *)
Theorem get_summary_add transaction db before income expenses :
  check_type (Transaction.type transaction) = true →
  is_nan (Transaction.amount transaction) = false →
  get_summary db = Ok before →
  total_income before = Some income →
  total_expenses before = Some expenses →
  get_summary (add_transaction transaction db).2 =
  if decide (Transaction.type transaction = "income") then
    match sql_real (nadd income (Transaction.amount transaction)) with
    | Some income' =>
        Ok {| total_income := Some income';
              total_expenses := Some expenses;
              net_balance := nsub income' expenses;
              income_count := S (income_count before);
              expense_count := expense_count before;
              total_transactions := S (total_transactions before) |}
    | None => Raise TypeError
    end
  else
    match sql_real (nadd expenses (Transaction.amount transaction)) with
    | Some expenses' =>
        Ok {| total_income := Some income;
              total_expenses := Some expenses';
              net_balance := nsub income expenses';
              income_count := income_count before;
              expense_count := S (expense_count before);
              total_transactions := S (total_transactions before) |}
    | None => Raise TypeError
    end.
Proof.
  intros Hck Hnan (i & e & Hi & He & ->)%get_summary_Ok [= <-] [= <-].
  unfold add_transaction. rewrite Hck, Hnan. simpl.
  rewrite get_summary_cases. simpl.
  rewrite (kind_total_snoc "income" _ _ i Hi).
  rewrite (kind_total_snoc "expense" _ _ e He). simpl.
  unfold of_kind. rewrite !filter_app, !filter_cons, !filter_nil. simpl.
  apply check_type_spec in Hck as [Hty|Hty]; rewrite Hty.
  - rewrite decide_True, decide_False, decide_True by done.
    rewrite app_nil_r, length_app. simpl.
    destruct (sql_real _); [|done]. do 2 f_equal; lia.
  - rewrite decide_False, decide_True, decide_False by done.
    rewrite app_nil_r, length_app. simpl.
    destruct (sql_real _); [|done]. do 2 f_equal; lia.
Qed.

Lemma length_filter_remove_key {A B} `{EqDecision B} (f : A → B)
    (P : A → Prop) `{∀ x, Decision (P x)} (l : list A) x :
  NoDup (f <$> l) → x ∈ l →
  (length (filter P (filter (λ y, f y ≠ f x) l)) +
   (if decide (P x) then 1 else 0))%nat = length (filter P l).
Proof.
  induction l as [|y l IH]; intros Hnd Hx.
  - by apply elem_of_nil in Hx.
  - rewrite fmap_cons in Hnd. apply NoDup_cons in Hnd as [Hy Hnd].
    apply elem_of_cons in Hx as [->|Hx].
    + rewrite filter_cons_False by (intros Hne; by apply Hne).
      rewrite (filter_all (λ z, f z ≠ f y)).
      * rewrite filter_cons. destruct (decide (P y)); simpl; lia.
      * intros z Hz Heq. apply Hy. rewrite <- Heq.
        by apply list_elem_of_fmap_2.
    + rewrite filter_cons_True.
      * rewrite !filter_cons. specialize (IH Hnd Hx).
        destruct (decide (P y)); simpl; lia.
      * intros Heq. apply Hy. rewrite Heq. by apply list_elem_of_fmap_2.
Qed.

(** X14: on a reachable store, when [get_summary] returns before and after
    the delete of a stored row (its id fitting SQLite's 64 bits, as every
    id the table hands out does), the delete has lowered the count of the
    row's kind by one, left the count of the other kind alone, and lowered
    the number of transactions by one. *)
Theorem get_summary_delete db row before after :
  wf db → row ∈ rows db → in_int64 (Row.id row) = true →
  get_summary db = Ok before →
  get_summary (delete_transaction (Row.id row) db).2 = Ok after →
  (income_count after +
     (if decide (Row.type row = "income") then 1 else 0))%nat =
    income_count before ∧
  (expense_count after +
     (if decide (Row.type row = "expense") then 1 else 0))%nat =
    expense_count before ∧
  (total_transactions after + 1)%nat = total_transactions before.
Proof.
  intros Hwf Hrow Hin (i & e & _ & _ & ->)%get_summary_Ok Hafter.
  unfold delete_transaction in Hafter. rewrite Hin in Hafter.
  apply get_summary_Ok in Hafter as (i' & e' & _ & _ & ->). simpl.
  pose proof (length_filter_remove_key Row.id (λ r, Row.type r = "income")
                (rows db) row (wf_nodup _ Hwf) Hrow) as Hi.
  pose proof (length_filter_remove_key Row.id (λ r, Row.type r = "expense")
                (rows db) row (wf_nodup _ Hwf) Hrow) as He.
  unfold of_kind. split_and!; [done|done|].
  assert (Row.type row = "income" ∨ Row.type row = "expense") as Hty.
  { apply check_type_spec.
    by eapply (proj1 (Forall_forall _ _) (wf_type _ Hwf)). }
  simpl in Hi, He.
  destruct Hty as [Hty|Hty]; rewrite Hty in Hi, He;
    repeat case_decide; try done; lia.
Qed.
(** X15: on a reachable store the index page shows the first ten
    transactions of the unlimited listing, or all of them when the store
    holds fewer, next to the summary of the whole store; when [get_summary]
    raises, the request ends in that uncaught exception. *)
Theorem handler_index_page clk db :
  wf db →
  ∃ all,
    get_all_transactions clk None db = Ok all ∧
    match get_summary db with
    | Ok summary =>
        Handlers.index clk db =
          Handlers.IndexPage (to_dict <$> take 10 all) summary (today clk) ∧
        length (take 10 all) = Nat.min 10 (total_transactions summary)
    | Raise e => Handlers.index clk db = Handlers.Uncaught e
    end.
Proof.
  intros Hwf. eexists. split; [apply get_all_transactions_unlimited|].
  unfold Handlers.index.
  rewrite get_all_transactions_limited by done.
  change (10 <? 0) with false. change (Z.to_nat 10) with 10%nat. cbv iota.
  rewrite fmap_take.
  destruct (get_summary db) as [summary|e] eqn:Hsummary; [|done].
  split; [done|].
  apply get_summary_Ok in Hsummary as (i & e & _ & _ & ->). simpl.
  rewrite length_take, length_fmap, length_of_kinds by done.
  by rewrite (Permutation_length (merge_sort_Permutation date_desc (rows db))).
Qed.
End Reachable.
(** *** Listings and groups after a write *)
Section AfterWrites.
Context `{Number}.

(** X16: a transaction added with a kind the table accepts and an amount
    [float] reads as a number is in the unlimited listing taken afterwards,
    and that listing is one entry longer than the table was. *)
Theorem add_then_list clk clk' ty a x category description date db :
  check_type ty = true →
  Transaction.float a = Ok x →
  is_nan x = false →
  ∃ transaction db' transactions,
    Routes.add_transaction clk ty a category description date db =
      (Ok transaction, db') ∧
    get_all_transactions clk' None db' = Ok transactions ∧
    transaction ∈ transactions ∧
    length transactions = S (length (rows db)).
Proof.
  intros Hck Hfloat Hnan.
  rewrite (add_transaction_stores clk ty a x) by done.
  eexists _, _, _. split; [done|].
  split; [apply get_all_transactions_unlimited|]. simpl. split.
  - apply list_elem_of_fmap. eexists. split; last first.
    + rewrite merge_sort_Permutation. apply elem_of_app. right. by left.
    + unfold read_row. simpl.
      rewrite !str_or_Some;
        [done|apply now_nonempty|apply str_or_nonempty, today_nonempty].
  - rewrite length_fmap.
    rewrite (Permutation_length (merge_sort_Permutation date_desc _)).
    rewrite length_app. simpl. lia.
Qed.

(** X17: after a delete with an id that fits SQLite's 64 bits, the unlimited
    listing reads exactly the rows that the listing before it read under
    another id; it is in the listing's order, date descending and then
    creation stamp descending, and so is the earlier listing with the
    deleted id left out: the two differ at most in the order of rows that
    the ORDER BY clause does not tell apart. *)
Theorem delete_then_list clk transaction_id db :
  in_int64 transaction_id = true →
  ∃ before after,
    get_all_transactions clk None db = Ok (read_row clk <$> before) ∧
    get_all_transactions clk None (delete_transaction transaction_id db).2 =
      Ok (read_row clk <$> after) ∧
    after ≡ₚ filter (λ r, Row.id r ≠ transaction_id) before ∧
    StronglySorted date_desc after ∧
    StronglySorted date_desc
      (filter (λ r, Row.id r ≠ transaction_id) before).
Proof.
  intros Hin. eexists _, _.
  split; [apply get_all_transactions_unlimited|].
  split; [apply get_all_transactions_unlimited|].
  unfold delete_transaction. rewrite Hin. simpl. split_and!.
  - by rewrite !merge_sort_Permutation.
  - apply StronglySorted_merge_sort; apply _.
  - apply StronglySorted_filter, StronglySorted_merge_sort; apply _.
Qed.

(** X18: on a reachable store the category summary has exactly the keys
    income and expense, and every entry of either list stands for at least
    one stored row of its kind and category. *)
Theorem get_category_summary_groups db :
  wf db →
  ∃ categories,
    get_category_summary db = Ok categories ∧
    dom categories = {["income"; "expense"]} ∧
    ∀ kind e, e ∈ default [] (categories !! kind) →
      (1 ≤ CategoryRow.count e)%nat ∧
      of_group kind (CategoryRow.category e) (rows db) ≠ [].
Proof.
  intros Hwf.
  destruct (get_category_summary_ok db Hwf) as (categories & Hok & Hlookup).
  exists categories. split; [done|]. split.
  - apply set_eq. intros k. rewrite elem_of_dom, Hlookup.
    case_decide as Hk.
    + split; [|by eauto]. intros _. set_solver.
    + split; [by intros [? ?]|]. intros Hin. exfalso. apply Hk. set_solver.
  - intros kind e He. rewrite Hlookup in He.
    case_decide; [|by apply elem_of_nil in He].
    simpl in He.
    apply list_elem_of_fmap in He
      as ([[ty c] [s n]] & -> & [Hkind Hg]%list_elem_of_filter).
    simpl in Hkind. subst ty.
    rewrite (merge_sort_Permutation total_desc) in Hg.
    apply elem_of_aggregate in Hg as (Hne & _ & ->). simpl.
    unfold of_group. split; [|done].
    destruct (filter _ (rows db)); [done|simpl; lia].
Qed.
End AfterWrites.
(** *** The further statements on the sample ledgers *)
Lemma from_dict_to_dict_witness :
  Transaction.__init__ noon None "expense" (Transaction.AmountStr "12")
    "Food" "" None None =
    Ok {| Transaction.id := None; Transaction.type := "expense";
          Transaction.amount := 12; Transaction.category := "Food";
          Transaction.description := ""; Transaction.date := "2024-06-01";
          Transaction.created_at := "2024-06-01T12:00:00" |} ∧
  from_dict noon
    (to_dict {| Transaction.id := None; Transaction.type := "expense";
                Transaction.amount := 12; Transaction.category := "Food";
                Transaction.description := ""; Transaction.date := "2024-06-01";
                Transaction.created_at := "2024-06-01T12:00:00" |}) =
    Ok {| Transaction.id := None; Transaction.type := "expense";
          Transaction.amount := 12; Transaction.category := "Food";
          Transaction.description := ""; Transaction.date := "2024-06-01";
          Transaction.created_at := "2024-06-01T12:00:00" |}.
Proof.
  split; [reflexivity|].
  apply (from_dict_to_dict noon noon None "expense"
           (Transaction.AmountStr "12") "Food" "" None None).
  reflexivity.
Defined.

Lemma get_transaction_by_id_stored_witness :
  wf sample ∧
  get_transaction_by_id noon 2 sample = Ok (Some (read_row noon lunch)) ∧
  get_transaction_by_id noon 7 sample = Ok None ∧
  get_transaction_by_id noon (2 ^ 63) sample = Raise OverflowError ∧
  (∀ row, row ∈ rows sample → in_int64 (Row.id row) = true →
     get_transaction_by_id noon (Row.id row) sample =
       Ok (Some (read_row noon row))) ∧
  (∀ transaction_id,
     in_int64 transaction_id = true →
     (∀ row, row ∈ rows sample → Row.id row ≠ transaction_id) →
     get_transaction_by_id noon transaction_id sample = Ok None) ∧
  (∀ transaction_id,
     in_int64 transaction_id = false →
     get_transaction_by_id noon transaction_id sample = Raise OverflowError).
Proof.
  split; [apply wf_sample|]. do 3 (split; [reflexivity|]).
  apply get_transaction_by_id_stored, wf_sample.
Defined.

Lemma get_all_transactions_limit_witness :
  0 < 1 ∧ length (rows sample) = 2%nat ∧
  ∃ all,
    get_all_transactions noon None sample = Ok all ∧
    get_all_transactions noon (Some 1) sample =
      (if in_int64 1 then Ok (take (Z.to_nat 1) all)
       else Raise IntegrityError) ∧
    length (take (Z.to_nat 1) all) =
      Nat.min (Z.to_nat 1) (length (rows sample)).
Proof.
  split; [lia|]. split; [reflexivity|].
  apply get_all_transactions_limit. lia.
Defined.

Lemma update_transaction_bad_kind_witness :
  is_Some (select_by_id 2 sample) ∧
  td_type bogus_kind = Some "bogus" ∧
  check_type "bogus" = false ∧
  update_transaction noon 2 bogus_kind sample = (Raise IntegrityError, sample).
Proof.
  split_and!; [by eexists|reflexivity|reflexivity|].
  apply (update_transaction_bad_kind noon 2 bogus_kind sample "bogus");
    [by eexists|reflexivity|reflexivity].
Defined.

Lemma handler_update_transaction_stores_witness :
  select_by_id 2 sample = Some lunch ∧
  dinner_form !! "type" = Some "expense" ∧ check_type "expense" = true ∧
  dinner_form !! "amount" = Some "12" ∧ float_of_string "12" = Some 12 ∧
  is_nan 12 = false ∧
  dinner_form !! "category" = Some "Food" ∧
  dinner_form !! "date" = Some "2024-06-02" ∧
  ∃ db',
    Handlers.update_transaction noon 2 dinner_form sample =
      (Handlers.Redirect, db') ∧
    select_by_id 2 db' =
      Some {| Row.id := Row.id lunch; Row.type := "expense"; Row.amount := 12;
              Row.category := "Food";
              Row.description := default "" (dinner_form !! "description");
              Row.date := "2024-06-02";
              Row.created_at := Row.created_at lunch |} ∧
    ∀ other, other ≠ 2 → select_by_id other db' = select_by_id other sample.
Proof.
  split_and!; [reflexivity..|].
  apply (handler_update_transaction_stores noon 2 dinner_form sample lunch
           "expense" "12" 12 "Food" "2024-06-02"); reflexivity.
Defined.

Lemma handlers_not_found_witness :
  select_by_id 7 sample = None ∧
  dinner_form !! "type" = Some "expense" ∧
  dinner_form !! "amount" = Some "12" ∧ float_of_string "12" = Some 12 ∧
  dinner_form !! "category" = Some "Food" ∧
  dinner_form !! "date" = Some "2024-06-02" ∧
  in_int64 7 = true ∧
  Handlers.edit_transaction noon 7 sample =
    Handlers.Json 404 (Handlers.Text "Transaction not found") ∧
  Handlers.delete_transaction 7 sample =
    (Handlers.Json 404 (Handlers.Text "Transaction not found"), sample) ∧
  Handlers.update_transaction noon 7 dinner_form sample =
    (Handlers.Json 400 (Handlers.Text "Failed to update transaction"), sample).
Proof.
  do 7 (split; [reflexivity|]).
  apply (handlers_not_found noon 7 dinner_form sample "expense" "12" 12
           "Food" "2024-06-02"); reflexivity.
Defined.

Lemma add_after_delete_fresh_id_witness :
  wf sample ∧
  check_type (Transaction.type (read_row noon lunch)) = true ∧
  is_nan (Transaction.amount (read_row noon lunch)) = false ∧
  ∃ transaction' new_id db',
    add_transaction (read_row noon lunch) (delete_transaction 2 sample).2 =
      (Ok transaction', db') ∧
    Transaction.id transaction' = Some new_id ∧
    ∀ row, row ∈ rows sample → Row.id row ≠ new_id.
Proof.
  split_and!; [apply wf_sample|reflexivity|reflexivity|].
  apply add_after_delete_fresh_id; [apply wf_sample|reflexivity|reflexivity].
Defined.

Lemma get_summary_counts_all_witness :
  wf ledger ∧
  kind_total "income" (rows ledger) = Some 2150 ∧
  kind_total "expense" (rows ledger) = Some 1210 ∧
  ∃ summary,
    get_summary ledger = Ok summary ∧
    total_transactions summary = length (rows ledger).
Proof.
  split_and!; [apply wf_ledger|reflexivity|reflexivity|].
  apply (get_summary_counts_all ledger 2150 1210);
    [apply wf_ledger|reflexivity|reflexivity].
Defined.

Lemma get_summary_add_witness :
  check_type (Transaction.type (read_row noon lunch)) = true ∧
  is_nan (Transaction.amount (read_row noon lunch)) = false ∧
  get_summary ledger =
    Ok {| total_income := Some 2150; total_expenses := Some 1210;
          net_balance := 940; income_count := 3; expense_count := 4;
          total_transactions := 7 |} ∧
  get_summary (add_transaction (read_row noon lunch) ledger).2 =
    Ok {| total_income := Some 2150; total_expenses := Some 1510;
          net_balance := 640; income_count := 3; expense_count := 5;
          total_transactions := 8 |}.
Proof.
  split_and!; [reflexivity..|].
  exact (get_summary_add (read_row noon lunch) ledger _ 2150 1210
           eq_refl eq_refl eq_refl eq_refl eq_refl).
Defined.

Lemma get_summary_delete_witness :
  wf ledger ∧ entry 5 "expense" 120 "Food" "2024-05-12" ∈ rows ledger ∧
  in_int64 5 = true ∧
  ∃ before after,
    get_summary ledger = Ok before ∧
    get_summary (delete_transaction 5 ledger).2 = Ok after ∧
    expense_count before = 4%nat ∧ expense_count after = 3%nat ∧
    (income_count after + 0)%nat = income_count before ∧
    (expense_count after + 1)%nat = expense_count before ∧
    (total_transactions after + 1)%nat = total_transactions before.
Proof.
  assert (entry 5 "expense" 120 "Food" "2024-05-12" ∈ rows ledger) as Hrow
    by (do 4 right; left).
  split_and!; [apply wf_ledger|exact Hrow|reflexivity|].
  eexists _, _. do 4 (split; [reflexivity|]).
  apply (get_summary_delete ledger
           (entry 5 "expense" 120 "Food" "2024-05-12"));
    [apply wf_ledger|exact Hrow|reflexivity..].
Defined.

Lemma wf_busy : wf busy.
Proof. apply wf_run. Qed.

Lemma handler_index_page_witness :
  wf busy ∧ length (rows busy) = 12%nat ∧
  get_summary busy =
    Ok {| total_income := Some 0; total_expenses := Some 144;
          net_balance := -144; income_count := 0; expense_count := 12;
          total_transactions := 12 |} ∧
  ∃ all,
    get_all_transactions noon None busy = Ok all ∧
    match get_summary busy with
    | Ok summary =>
        Handlers.index noon busy =
          Handlers.IndexPage (to_dict <$> take 10 all) summary (today noon) ∧
        length (take 10 all) = Nat.min 10 (total_transactions summary)
    | Raise e => Handlers.index noon busy = Handlers.Uncaught e
    end.
Proof.
  split; [apply wf_busy|]. do 2 (split; [reflexivity|]).
  apply handler_index_page, wf_busy.
Defined.

Lemma add_then_list_witness :
  check_type "expense" = true ∧
  Transaction.float (Transaction.AmountStr "12") = Ok 12 ∧
  is_nan 12 = false ∧
  ∃ transaction db' transactions,
    Routes.add_transaction noon "expense" (Transaction.AmountStr "12") "Food"
      "" (Some "2024-06-02") sample = (Ok transaction, db') ∧
    get_all_transactions noon None db' = Ok transactions ∧
    transaction ∈ transactions ∧
    length transactions = S (length (rows sample)).
Proof.
  split_and!; [reflexivity..|].
  apply (add_then_list (H := Z_number) noon noon "expense"
           (Transaction.AmountStr "12") 12); reflexivity.
Defined.

Lemma delete_then_list_witness :
  in_int64 5 = true ∧
  ∃ before after,
    get_all_transactions noon None ledger = Ok (read_row noon <$> before) ∧
    get_all_transactions noon None (delete_transaction 5 ledger).2 =
      Ok (read_row noon <$> after) ∧
    after ≡ₚ filter (λ r, Row.id r ≠ 5) before ∧
    StronglySorted date_desc after ∧
    StronglySorted date_desc (filter (λ r, Row.id r ≠ 5) before).
Proof.
  split; [reflexivity|]. apply delete_then_list. reflexivity.
Defined.

Lemma get_category_summary_groups_witness :
  wf sample ∧
  ∃ categories,
    get_category_summary sample = Ok categories ∧
    dom categories = {["income"; "expense"]} ∧
    ∀ kind e, e ∈ default [] (categories !! kind) →
      (1 ≤ CategoryRow.count e)%nat ∧
      of_group kind (CategoryRow.category e) (rows sample) ≠ [].
Proof.
  split; [apply wf_sample|]. apply get_category_summary_groups, wf_sample.
Defined.

Lemma get_category_summary_partition_witness :
  wf ledger ∧
  ∃ categories incomes expenses,
    get_category_summary ledger = Ok categories ∧
    categories !! "income" = Some incomes ∧
    categories !! "expense" = Some expenses ∧
    (∀ r, r ∈ rows ledger →
       length (filter (λ g, g = type_category r)
                 (summary_groups categories)) = 1%nat) ∧
    (∀ kind e, e ∈ default [] (categories !! kind) →
       CategoryRow.count e =
         length (of_group kind (CategoryRow.category e) (rows ledger)) ∧
       CategoryRow.total e =
         sum_total (of_group kind (CategoryRow.category e) (rows ledger))) ∧
    sum_list_with CategoryRow.count incomes =
      length (of_kind "income" (rows ledger)) ∧
    sum_list_with CategoryRow.count expenses =
      length (of_kind "expense" (rows ledger)) ∧
    ∀ summary, get_summary ledger = Ok summary →
      income_count summary = sum_list_with CategoryRow.count incomes ∧
      expense_count summary = sum_list_with CategoryRow.count expenses.
Proof.
  split; [apply wf_ledger|].
  apply get_category_summary_partition, wf_ledger.
Defined.
